(** * Baselines and scoring of the MovieLens Object2Vec notebook

    A shallow embedding of the evaluation code of
    [movie_recommendation_embeddings_Neuran_network.ipynb]:
    [get_mse_loss], the global-average baseline [bs1_prediction] and the
    per-user baseline [bs2_predictor], with the cells that call them,
    followed by the properties the specification states about them.

    Numbers.  The values of Python and NumPy floats are idealised as exact
    rationals ([Q]), extended with one not-a-number value, which is what
    [np.mean] yields on an empty sequence.  Two effects of the binary
    format are kept, because they change what the code returns.

    - [round(x, 2)] acts on a binary double.  When the exact value lies
      halfway between two hundredths, the double lies on one side or the
      other, by the last bits of the computation that produced it, and the
      result is one hundredth or the other.  Each function that rounds
      takes this direction as an argument of type [tie]; every theorem
      holds for every direction.
    - [x ** 2] on a Python float raises [OverflowError] when the square
      leaves the range of doubles; on a NumPy number it does not raise.
      Rows therefore record which of the two they are.  Sums and
      differences are exact: their own overflow to an infinity, beyond
      magnitudes of [2 ^ 1023], is not modelled.

    Equality of finite numbers is [Qeq] ([==]).  Python exceptions are
    values of the type [error]. *)

From Stdlib Require Import QArith Qround Qabs Lqa ZArith Lia.
From stdpp Require Import gmap strings list pretty.

Local Open Scope Z_scope.

(** ** Exceptions and fallible results *)

Inductive error : Type :=
  | KeyError (key : string)
  | IndexError
  | ValueError
  | AssertionError (msg : string)
  | ZeroDivisionError
  | OverflowError.

Inductive result (A : Type) : Type :=
  | Ok (a : A)
  | Err (e : error).
Arguments Ok {A} a.
Arguments Err {A} e.

(** Sequencing of fallible steps, through stdpp's monad notation
    [x ← r; k]: the first exception raised aborts what follows. *)
#[global] Instance result_bind : MBind result := λ A B k r,
  match r with
  | Ok a => k a
  | Err e => Err e
  end.

(** ** Numbers *)

Inductive num : Type :=
  | Fin (q : Q)
  | NaN.

(** Binary arithmetic propagates not-a-number. *)
Definition num_lift2 (f : Q -> Q -> Q) (a b : num) : num :=
  match a, b with
  | Fin x, Fin y => Fin (f x y)
  | _, _ => NaN
  end.

(** [a + b], exact: the last-bit error of the float sum, which depends on
    the order of the operands, shows only in the direction of a later
    rounding at a decimal tie (see [tie]). *)
Definition num_add : num -> num -> num := num_lift2 Qplus.
Definition num_sub : num -> num -> num := num_lift2 Qminus.
Definition num_div : num -> num -> num := num_lift2 Qdiv.

(** [x ** 2] on a NumPy number: no exception. *)
Definition num_sq (a : num) : num :=
  match a with
  | Fin x => Fin (x ^ 2)%Q
  | NaN => NaN
  end.

(** The squares from which a double rounds to infinity:
    [2 ^ 1024 - 2 ^ 970], half a unit in the last place above the largest
    double. *)
Definition max_square : Q := inject_Z (2 ^ 1024 - 2 ^ 970).

(** [x ** 2] on a Python float: [OverflowError] when the square is out of
    the range of doubles; not-a-number squares to itself. *)
Definition py_sq (a : num) : result num :=
  match a with
  | Fin x => if Qlt_le_dec (x ^ 2) max_square then Ok (Fin (x ^ 2)%Q)
             else Err OverflowError
  | NaN => Ok NaN
  end.

(** [a > b]; every comparison with not-a-number is [False]. *)
Definition num_gt (a b : num) : bool :=
  match a, b with
  | Fin x, Fin y => if Qlt_le_dec y x then true else false
  | _, _ => false
  end.

(** The side on which a binary double lies of the decimal tie that its
    exact value sits on, and so the neighbour to which it is rounded. *)
Inductive tie : Type :=
  | TieDown
  | TieUp.

(** Rounding to the nearest integer; at a tie, to the side [t]. *)
Definition round_nearest (t : tie) (x : Q) : Z :=
  let f := Qfloor x in
  match (x - inject_Z f ?= 1 # 2)%Q with
  | Lt => f
  | Gt => f + 1
  | Eq => match t with TieDown => f | TieUp => f + 1 end
  end.

(** [round(x, 2)] on a finite number. *)
Definition round2 (t : tie) (x : Q) : Q := Qmake (round_nearest t (x * 100)) 100.

(** [round(x, 2)]; not-a-number rounds to itself. *)
Definition num_round2 (t : tie) (a : num) : num :=
  match a with
  | Fin x => Fin (round2 t x)
  | NaN => NaN
  end.

(** [int(b)] of a Python [bool], kept as a number. *)
Definition int_of_bool (b : bool) : num := Fin (if b then 1 else 0)%Q.

(** [str(n)] of a Python [int]: its decimal numeral. *)
Definition str (n : Z) : string := pretty n.

(** Sum of a sequence of rationals, left to right. *)
Definition Qsum (l : list Q) : Q := foldl Qplus 0%Q l.

(** [np.mean]: the arithmetic mean, and not-a-number on an empty sequence. *)
Definition np_mean (l : list Q) : num :=
  match l with
  | [] => NaN
  | _ => Fin (Qsum l / inject_Z (Z.of_nat (length l)))%Q
  end.

(** ** Data *)

(** A row of [train_data_list] / [validation_data_list]: the
    dictionary [{'in0': [user], 'in1': [movie], 'label': rating}]. *)
Record labeled_row : Type := {
  in0 : list Z;
  in1 : list Z;
  label : Q
}.

(** The row of the rating [rating] that user [u] gave to movie [m]. *)
Definition rated (u m : Z) (rating : Q) : labeled_row :=
  {| in0 := [u]; in1 := [m]; label := rating |}.

(** A query of the inference format: [{'in0': [user], 'in1': [movie]}]. *)
Record instance : Type := {
  inst_in0 : list Z;
  inst_in1 : list Z
}.

(** The query for user [u] and movie [m]. *)
Definition query (u m : Z) : instance :=
  {| inst_in0 := [u]; inst_in1 := [m] |}.

(** The inference payload [{'instances': [...]}]. *)
Record inference_data : Type := {
  instances : list instance
}.

(** One entry of a prediction sequence: a bare Python number, a bare NumPy
    number (what [np.mean] and its rounding yield), or a dictionary that is
    expected to hold the list of scores, Python numbers, under the key
    ['scores']. *)
Inductive row : Type :=
  | Bare (x : num)
  | NpBare (x : num)
  | Scored (d : gmap string (list num)).

(** What [get_mse_loss] receives as [res]: a sequence of rows, or a
    dictionary that is expected to hold one under the key ['predictions']. *)
Inductive predictions : Type :=
  | Rows (rows : list row)
  | Response (d : gmap string (list row)).

(** A sequence of finite numbers given as bare rows. *)
Definition bare (ps : list Q) : list row := map (λ p, Bare (Fin p)) ps.

(** [r] is a structured score object whose ['scores'] field has [x] as its
    first element. *)
Definition scored_as (x : num) (r : row) : Prop :=
  ∃ d rest, r = Scored d ∧ d !! "scores"%string = Some (x :: rest).

(** ** Scoring: [get_mse_loss] *)

(** [if type(res) is dict: res = res['predictions']] *)
Definition rows_of (res : predictions) : result (list row) :=
  match res with
  | Rows rows => Ok rows
  | Response d =>
      match d !! "predictions"%string with
      | Some rows => Ok rows
      | None => Err (KeyError "predictions")
      end
  end.

(** The number a row stands for: [row['scores'][0]] for a dictionary, the row
    itself otherwise. *)
Definition row_score (r : row) : result num :=
  match r with
  | Bare x => Ok x
  | NpBare x => Ok x
  | Scored d =>
      match d !! "scores"%string with
      | None => Err (KeyError "scores")
      | Some [] => Err IndexError
      | Some (x :: _) => Ok x
      end
  end.

(** [(x - label)**2] for the number [x] of the row [r]: the power of NumPy
    for a NumPy number, of Python otherwise. *)
Definition sq_diff (r : row) (x : num) (l : Q) : result num :=
  let d := num_sub x (Fin l) in
  match r with
  | NpBare _ => Ok (num_sq d)
  | _ => py_sq d
  end.

(** The [for row, label in zip(res, labels)] loop, with the running [loss]. *)
Fixpoint mse_loop (loss : num) (pairs : list (row * Q)) : result num :=
  match pairs with
  | [] => Ok loss
  | (r, l) :: rest =>
      x ← row_score r;
      sq ← sq_diff r x l;
      mse_loop (num_add loss sq) rest
  end.

Definition length_mismatch : string := "result and label length mismatch!".

Definition get_mse_loss (t : tie) (res : predictions) (labels : list Q)
    : result num :=
  rows ← rows_of res;
  if negb (length rows =? length labels)%nat
  then Err (AssertionError length_mismatch)
  else
    loss ← mse_loop (Fin 0) (zip rows labels);
    (* [loss / float(len(labels))]: with no label the loop has not run and
       [loss] is still the integer [0], whose division by [0.0] raises *)
    if (length labels =? 0)%nat
    then Err ZeroDivisionError
    else Ok (num_round2 t
               (num_div loss (Fin (inject_Z (Z.of_nat (length labels)))))).

(** ** Baseline 1: the global rating average *)

Definition train_r_label (train_data_list : list labeled_row) : list Q :=
  map label train_data_list.

Definition bs1_prediction (t : tie) (train_data_list : list labeled_row) : num :=
  num_round2 t (np_mean (train_r_label train_data_list)).

(** [len(valid_r_label) * [bs1_prediction]]: one prediction per validation
    query. *)
Definition bs1_predictions (t : tie) (train_data_list : list labeled_row)
    (valid_r_label : list Q) : list num :=
  replicate (length valid_r_label) (bs1_prediction t train_data_list).

(** ** Baseline 2: the per-user rating average *)

(** [local_movies, local_ratings = zip] of the unpacked bucket: the
    assignment to two names fails on an empty bucket, for which [zip] yields
    nothing. *)
Definition unzip_bucket (bucket : list (string * Q)) : result (list string * list Q) :=
  match bucket with
  | [] => Err ValueError
  | _ => Ok (bucket.*1, bucket.*2)
  end.

(** [row['in0'][0]] *)
Definition first_in0 (r : instance) : result Z :=
  match inst_in0 r with
  | [] => Err IndexError
  | u :: _ => Ok u
  end.

(** [user_dict[userID]] *)
Definition user_bucket (user_dict : gmap string (list (string * Q)))
    (userID : string) : result (list (string * Q)) :=
  match user_dict !! userID with
  | Some bucket => Ok bucket
  | None => Err (KeyError userID)
  end.

(** One turn of the loop of [bs2_predictor]: the prediction appended for
    [row].  Ratings are kept as numbers, on which [float] is the identity. *)
Definition bs2_row (user_dict : gmap string (list (string * Q)))
    (is_classification : bool) (thres : num) (r : instance) : result num :=
  u ← first_in0 r;
  let userID := str u in
  bucket ← user_bucket user_dict userID;
  '(local_movies, local_ratings) ← unzip_bucket bucket;
  let p := np_mean local_ratings in
  Ok (if is_classification then int_of_bool (num_gt p (Fin 3)) else p).

Fixpoint bs2_loop (user_dict : gmap string (list (string * Q)))
    (is_classification : bool) (thres : num)
    (preds : list num) (test_data : list instance) : result (list num) :=
  match test_data with
  | [] => Ok preds
  | r :: rest =>
      p ← bs2_row user_dict is_classification thres r;
      bs2_loop user_dict is_classification thres (preds ++ [p]) rest
  end.

Definition bs2_predictor (test_data : inference_data)
    (user_dict : gmap string (list (string * Q)))
    (is_classification : bool) (thres : num) : result (list num) :=
  bs2_loop user_dict is_classification thres [] (instances test_data).

(** The query [r] names, as the first element of its [in0], a user who has
    a bucket with a rating. *)
Definition known_user (user_dict : gmap string (list (string * Q)))
    (r : instance) : Prop :=
  ∃ u rest bucket, inst_in0 r = u :: rest ∧ user_dict !! str u = Some bucket
                   ∧ bucket ≠ [].

(** The user index of the specification's scenario: user 1 rated movie 1
    with 5 and movie 2 with 3, user 2 rated movie 1 with 4. *)
Definition scenario_users : gmap string (list (string * Q)) :=
  {[ "1"%string := [("1"%string, 5%Q); ("2"%string, 3%Q)];
     "2"%string := [("1"%string, 4%Q)] ]}.

(** A user index with different averages: user 1 as in the scenario, user 12
    with the ratings 1 and 2, user 30 with the rating 5. *)
Definition three_users : gmap string (list (string * Q)) :=
  {[ "1"%string := [("1"%string, 5%Q); ("2"%string, 3%Q)];
     "12"%string := [("7"%string, 1%Q); ("1"%string, 2%Q)];
     "30"%string := [("2"%string, 5%Q)] ]}.

(** ** Label transformer *)

Module LabelTransformer.

(** Modelled from the spec: [customutil.py], which holds
    [get_binarized_label], is not among the sources; the notebook only calls
    it, as [cu.get_binarized_label(data_list, 3.0)].  The specification's
    [to_classification_label(record, threshold)] gives the label [1] if
    [record.rating > threshold] and [0] otherwise, and keeps the user and
    the item. *)
Record Record_ : Type := {
  user_id : Z;
  item_id : Z;
  rating : Q
}.

Record LabeledExample : Type := {
  ex_user_id : Z;
  ex_item_id : Z;
  ex_label : Q
}.

Definition to_classification_label (record : Record_) (threshold : Q)
    : LabeledExample :=
  {| ex_user_id := user_id record;
     ex_item_id := item_id record;
     ex_label := if Qlt_le_dec threshold (rating record) then 1 else 0 |}.

(** Modelled from the spec: the transform applied to a sequence of records,
    as [get_binarized_label] is called; an empty sequence gives an empty
    sequence. *)
Definition get_binarized_label (data_list : list Record_) (threshold : Q)
    : list LabeledExample :=
  map (λ record, to_classification_label record threshold) data_list.

End LabelTransformer.

(** ** Reference definitions, after the specification's words *)

(** [sum((p_i - l_i)^2)] over the paired sequences. *)
Fixpoint sum_sq_diff (ps ls : list Q) : Q :=
  match ps, ls with
  | p :: ps', l :: ls' => ((p - l) ^ 2 + sum_sq_diff ps' ls')%Q
  | _, _ => 0%Q
  end.

(** [sum((p_i - l_i)^2) / n] *)
Definition mean_squared_error (ps ls : list Q) : Q :=
  (sum_sq_diff ps ls / inject_Z (Z.of_nat (length ls)))%Q.

(** The arithmetic mean of a non-empty sequence. *)
Fixpoint total (l : list Q) : Q :=
  match l with
  | [] => 0%Q
  | x :: l' => (x + total l')%Q
  end.

Definition arithmetic_mean (l : list Q) : Q :=
  (total l / inject_Z (Z.of_nat (length l)))%Q.

(** [p] is the arithmetic mean of the ratings in the bucket of the user that
    the query [r] names as the first element of its [in0]. *)
Definition user_mean (user_dict : gmap string (list (string * Q)))
    (r : instance) (p : num) : Prop :=
  ∃ u rest bucket m, inst_in0 r = u :: rest
                     ∧ user_dict !! str u = Some bucket
                     ∧ p = Fin m ∧ (m == arithmetic_mean bucket.*2)%Q.

(** [r] has two decimals: it is a whole number of hundredths. *)
Definition two_decimals (r : Q) : Prop := ∃ k : Z, r = k # 100.

(** [r] is [x] rounded to two decimals: a number with two decimals nearest
    to [x].  There is one such number, or two when [x] lies halfway between
    two hundredths. *)
Definition rounded_to_two_decimals (x r : Q) : Prop :=
  two_decimals r ∧ (Qabs (r - x) <= 1 # 200)%Q.

(** [x] lies halfway between two hundredths. *)
Definition decimal_tie (x : Q) : Prop :=
  ∃ j : Z, (x * 200 == inject_Z (2 * j + 1))%Q.

(** The squared difference of the prediction [x] and the label [l] is in the
    range of doubles, or is not a number. *)
Definition square_in_range (x : num) (l : Q) : Prop :=
  match x with
  | Fin q => ((q - l) ^ 2 < max_square)%Q
  | NaN => True
  end.

(** The same for a row: a Python number, bare or the first score of a
    dictionary, must have its squared difference in range; nothing is asked
    of a NumPy number or of a row without a score. *)
Definition row_in_range (r : row) (l : Q) : Prop :=
  match r with
  | NpBare _ => True
  | _ => ∀ x, row_score r = Ok x -> square_in_range x l
  end.

(** ** The notebook's evaluation and exploration cells *)

(** The validation loss of Baseline 1:
    [get_mse_loss(len(valid_r_label)*[bs1_prediction], valid_r_label)], with
    the tie direction [t] of the rounding of the average and [t'] of the
    rounding of the loss.  The prediction is a NumPy number. *)
Definition bs1_loss (t t' : tie) (train_data_list : list labeled_row)
    (valid_r_label : list Q) : result num :=
  get_mse_loss t'
    (Rows (map NpBare (bs1_predictions t train_data_list valid_r_label)))
    valid_r_label.

(** The validation loss of Baseline 2:
    [bs2_prediction = bs2_predictor(valid_r_data, to_users_dict,
    is_classification=False)], with the default [thres=3], and then
    [get_mse_loss(bs2_prediction, valid_r_label)].  The predictions are NumPy
    numbers. *)
Definition bs2_loss (t : tie) (valid_r_data : inference_data)
    (to_users_dict : gmap string (list (string * Q)))
    (valid_r_label : list Q) : result num :=
  bs2_prediction ← bs2_predictor valid_r_data to_users_dict false (Fin 3);
  get_mse_loss t (Rows (map NpBare bs2_prediction)) valid_r_label.

(** [[len(val) for key, val in to_users_dict.items()]], in the order in
    which the map enumerates its keys. *)
Definition movies_per_user (to_users_dict : gmap string (list (string * Q)))
    : list nat :=
  (λ kv, length kv.2) <$> map_to_list to_users_dict.

(** The counting loop of the exploration cell:
    [for n_movies in movies_per_user: if n_movies <= bound: count += 1]. *)
Fixpoint count_no_more_than (bound count : nat) (per_user : list nat) : nat :=
  match per_user with
  | [] => count
  | n :: rest =>
      count_no_more_than bound (if (n <=? bound)%nat then S count else count) rest
  end.

(** [np.count_nonzero] of a sequence of numbers. *)
Fixpoint count_nonzero (l : list Q) : nat :=
  match l with
  | [] => 0%nat
  | x :: l' => ((if Qeq_bool x 0 then 0 else 1) + count_nonzero l')%nat
  end.

(** The share of positive labels of the training set,
    [np.count_nonzero(train_c_label)/len(train_c_label)]: a division of two
    Python integers, which raises on no label. *)
Definition train_positive_fraction (train_c_label : list Q) : result num :=
  if (length train_c_label =? 0)%nat
  then Err ZeroDivisionError
  else Ok (Fin (inject_Z (Z.of_nat (count_nonzero train_c_label))
                / inject_Z (Z.of_nat (length train_c_label)))%Q).

(** The share of positive labels of the validation set,
    [np.sum(valid_c_label)/len(valid_c_label)]: a division of a NumPy number,
    which gives not-a-number on no label. *)
Definition valid_positive_fraction (valid_c_label : list Q) : num :=
  match valid_c_label with
  | [] => NaN
  | _ => Fin (Qsum valid_c_label / inject_Z (Z.of_nat (length valid_c_label)))%Q
  end.

(** The answer of the prediction endpoint for the scores [xs]:
    [{'predictions': [{'scores': [x]}, ...]}]. *)
Definition endpoint_response (xs : list num) : predictions :=
  Response {[ "predictions"%string :=
                map (λ x, Scored {[ "scores"%string := [x] ]}) xs ]}.

(** The row resolves to a number: it is bare, or a dictionary whose
    ['scores'] list is not empty. *)
Definition has_score (r : row) : Prop := ∃ x, row_score r = Ok x.

(** The binarization [int(p > 3)] that [bs2_predictor] applies in
    classification mode. *)
Definition above_three (p : num) : num := int_of_bool (num_gt p (Fin 3)).


(** * Properties *)

(** ** Rounding to two decimals *)

Section Rounding.
Local Open Scope Q_scope.

(** Turns the outcome of a comparison of rationals into the order fact. *)
Ltac compare_fact H :=
  match type of H with
  | (_ ?= _) = Eq => apply Qeq_alt in H
  | (_ ?= _) = Lt => apply Qlt_alt in H
  | (_ ?= _) = Gt => apply Qgt_alt in H
  end.

Lemma round_nearest_comp (t : tie) (x y : Q) :
  x == y -> round_nearest t x = round_nearest t y.
Proof.
  intros H. unfold round_nearest.
  rewrite (Qfloor_comp _ _ H).
  assert (Hc : (x - inject_Z (Qfloor y) ?= 1 # 2) = (y - inject_Z (Qfloor y) ?= 1 # 2)).
  { apply Qcompare_comp; [rewrite H|]; reflexivity. }
  rewrite Hc. reflexivity.
Qed.

Lemma round_nearest_near (t : tie) (x : Q) :
  -(1 # 2) <= inject_Z (round_nearest t x) - x <= 1 # 2.
Proof.
  unfold round_nearest.
  pose proof (Qfloor_le x) as Hlo. pose proof (Qlt_floor x) as Hhi.
  rewrite inject_Z_plus in Hhi. change (inject_Z 1) with 1 in Hhi.
  destruct (x - inject_Z (Qfloor x) ?= 1 # 2) eqn:Hc; compare_fact Hc.
  - destruct t; rewrite ?inject_Z_plus; change (inject_Z 1) with 1; split; lra.
  - split; lra.
  - rewrite inject_Z_plus. change (inject_Z 1) with 1. split; lra.
Qed.

Lemma round_nearest_Z (t : tie) (k : Z) : round_nearest t (inject_Z k) = k.
Proof.
  unfold round_nearest. rewrite Qfloor_Z.
  assert (Hc : (inject_Z k - inject_Z k ?= 1 # 2) = Lt).
  { apply Qlt_alt. unfold Qminus. rewrite Qplus_opp_r. reflexivity. }
  rewrite Hc. reflexivity.
Qed.

Lemma round_nearest_floor (t : tie) (x : Q) :
  (Qfloor x <= round_nearest t x <= Qfloor x + 1)%Z.
Proof.
  unfold round_nearest.
  destruct (x - inject_Z (Qfloor x) ?= 1 # 2); [destruct t | |]; lia.
Qed.

Lemma round_nearest_mono (t : tie) (x y : Q) :
  x <= y -> (round_nearest t x <= round_nearest t y)%Z.
Proof.
  intros Hxy. pose proof (Qfloor_resp_le _ _ Hxy) as Hf.
  pose proof (round_nearest_floor t x) as Hx.
  pose proof (round_nearest_floor t y) as Hy.
  destruct (Z.eq_dec (Qfloor x) (Qfloor y)) as [Heq | Hne]; [| lia].
  clear Hx Hy Hf. unfold round_nearest. rewrite Heq.
  set (f := Qfloor y). generalize (inject_Z f). intros g.
  destruct (x - g ?= 1 # 2) eqn:Hcx; destruct (y - g ?= 1 # 2) eqn:Hcy;
    compare_fact Hcx; compare_fact Hcy;
    try (exfalso; lra); destruct t; lia.
Qed.



Lemma Qmake_100 (z : Z) : z # 100 == inject_Z z * (1 # 100).
Proof. rewrite Qmake_Qdiv. reflexivity. Qed.

Lemma round2_comp (t : tie) (x y : Q) : x == y -> round2 t x = round2 t y.
Proof.
  intros H. unfold round2. f_equal. apply round_nearest_comp.
  rewrite H. reflexivity.
Qed.

Lemma round2_near (t : tie) (x : Q) : Qabs (round2 t x - x) <= 1 # 200.
Proof.
  unfold round2. apply Qabs_Qle_condition.
  pose proof (round_nearest_near t (x * 100)) as [Hlo Hhi].
  rewrite Qmake_100.
  generalize dependent (inject_Z (round_nearest t (x * 100))).
  intros r Hlo Hhi. split; lra.
Qed.

Lemma round2_exact (t : tie) (x : Q) (k : Z) :
  x * 100 == inject_Z k -> round2 t x == x.
Proof.
  intros H. unfold round2.
  rewrite (round_nearest_comp _ _ _ H), round_nearest_Z, Qmake_100.
  rewrite <- H. ring.
Qed.

(** [round2] rounds to two decimals, for either direction at a tie. *)
Lemma round2_rounded (t : tie) (x : Q) : rounded_to_two_decimals x (round2 t x).
Proof. split; [by eexists | apply round2_near]. Qed.

Lemma round2_mono (t : tie) (x y : Q) : x <= y -> round2 t x <= round2 t y.
Proof.
  intros Hxy.
  assert (H : (round_nearest t (x * 100) <= round_nearest t (y * 100))%Z).
  { apply round_nearest_mono. lra. }
  unfold round2, Qle. cbn [Qnum Qden]. lia.
Qed.

Lemma round2_Z (t : tie) (k : Z) : round2 t (inject_Z k) == inject_Z k.
Proof.
  apply (round2_exact _ _ (k * 100)). rewrite inject_Z_mult. reflexivity.
Qed.

Lemma round2_nonneg (t : tie) (x : Q) : 0 <= x -> 0 <= round2 t x.
Proof.
  intros H. apply (round2_mono t) in H.
  change 0 with (inject_Z 0) in H at 1. rewrite round2_Z in H. exact H.
Qed.





End Rounding.

(** ** Scoring *)

Section Scoring.
Local Open Scope Q_scope.
#[local] Opaque max_square.

Lemma length_bare (ps : list Q) : length (bare ps) = length ps.
Proof. apply length_map. Qed.

Lemma Qsq_nonneg (x : Q) : 0 <= x ^ 2.
Proof.
  assert (H : x ^ 2 == x * x) by (simpl; ring). rewrite H.
  destruct (Qlt_le_dec x 0) as [Hneg | Hpos].
  - assert (Hx : x * x == (- x) * (- x)) by ring. rewrite Hx.
    apply Qmult_le_0_compat; lra.
  - by apply Qmult_le_0_compat.
Qed.

Lemma sum_sq_diff_nonneg (ps ls : list Q) : 0 <= sum_sq_diff ps ls.
Proof.
  revert ls. induction ps as [|p ps IH]; intros [|l ls];
    cbn [sum_sq_diff]; try lra.
  specialize (IH ls). pose proof (Qsq_nonneg (p - l)) as Hsq.
  generalize dependent ((p - l) ^ 2). intros; lra.
Qed.

(** A Python square in range is the exact square. *)
Lemma py_sq_in_range (x : Q) :
  x ^ 2 < max_square -> py_sq (Fin x) = Ok (Fin (x ^ 2)).
Proof.
  intros H. unfold py_sq. destruct (Qlt_le_dec (x ^ 2) max_square); [done |].
  exfalso. lra.
Qed.

Lemma py_sq_overflow (x : Q) :
  max_square <= x ^ 2 -> py_sq (Fin x) = Err OverflowError.
Proof.
  intros H. unfold py_sq. destruct (Qlt_le_dec (x ^ 2) max_square); [| done].
  exfalso. lra.
Qed.

Lemma mse_loop_bare_cons (p l : Q) (ps ls : list Q) (loss : num) :
  mse_loop loss (zip (bare (p :: ps)) (l :: ls))
  = sq ← py_sq (Fin (p - l)); mse_loop (num_add loss sq) (zip (bare ps) ls).
Proof. reflexivity. Qed.

(** On bare finite rows whose squared differences sum within the range of
    doubles, the loop adds them up. *)
Lemma mse_loop_bare (ps ls : list Q) (a : Q) :
  sum_sq_diff ps ls < max_square ->
  ∃ a', mse_loop (Fin a) (zip (bare ps) ls) = Ok (Fin a')
        ∧ a' == a + sum_sq_diff ps ls.
Proof.
  revert ls a. induction ps as [|p ps IH]; intros ls a Hsum.
  - exists a. split; [reflexivity | simpl; ring].
  - destruct ls as [|l ls].
    + exists a. split; [reflexivity | simpl; ring].
    + cbn [sum_sq_diff] in Hsum.
      pose proof (sum_sq_diff_nonneg ps ls) as Htail.
      pose proof (Qsq_nonneg (p - l)) as Hhead.
      destruct (IH ls (a + (p - l) ^ 2)) as (a' & Hrun & Ha'); [lra |].
      exists a'. split.
      * rewrite mse_loop_bare_cons, py_sq_in_range by lra. exact Hrun.
      * rewrite Ha'. cbn [sum_sq_diff]. ring.
Qed.

(** What the loop has computed on bare finite rows when it returns. *)
Lemma mse_loop_bare_inv (ps ls : list Q) :
  ∀ (a : Q) (v : num),
    mse_loop (Fin a) (zip (bare ps) ls) = Ok v ->
    ∃ a', v = Fin a' ∧ a' == a + sum_sq_diff ps ls.
Proof.
  revert ls. induction ps as [|p ps IH]; intros ls a v.
  - intros [= <-]. exists a. split; [done | simpl; ring].
  - destruct ls as [|l ls].
    + intros [= <-]. exists a. split; [done | simpl; ring].
    + rewrite mse_loop_bare_cons. unfold py_sq.
      destruct (Qlt_le_dec ((p - l) ^ 2) max_square); [| done].
      intros Hrun. destruct (IH ls _ _ Hrun) as (a' & -> & Ha').
      exists a'. split; [done |]. rewrite Ha'. cbn [sum_sq_diff]. ring.
Qed.

Lemma sq_diff_no_zero_division (r : row) (x : num) (l : Q) :
  sq_diff r x l ≠ Err ZeroDivisionError.
Proof.
  unfold sq_diff, py_sq.
  destruct r, (num_sub x (Fin l)); try done;
    by destruct (Qlt_le_dec _ _).
Qed.

(** The loop raises nothing but a missing key, an empty list of scores or an
    overflow of a square. *)
Lemma mse_loop_no_zero_division (pairs : list (row * Q)) (loss : num) :
  mse_loop loss pairs ≠ Err ZeroDivisionError.
Proof.
  revert loss. induction pairs as [|[r l] pairs IH]; intros loss; [done |].
  cbn [mse_loop].
  destruct (row_score r) as [x | e] eqn:Hr; cbn [mbind result_bind].
  - pose proof (sq_diff_no_zero_division r x l) as Hsq.
    destruct (sq_diff r x l) as [sq | e]; cbn [mbind result_bind];
      [apply IH | congruence].
  - destruct r as [? | ? | d]; simpl in Hr; try done.
    destruct (d !! "scores"%string) as [[|? ?] |]; congruence.
Qed.

Lemma get_mse_loss_rows (t : tie) (res : predictions) (rows : list row)
    (labels : list Q) :
  rows_of res = Ok rows ->
  get_mse_loss t res labels =
    if negb (length rows =? length labels)%nat
    then Err (AssertionError length_mismatch)
    else
      loss ← mse_loop (Fin 0) (zip rows labels);
      if (length labels =? 0)%nat
      then Err ZeroDivisionError
      else Ok (num_round2 t
                 (num_div loss (Fin (inject_Z (Z.of_nat (length labels)))))).
Proof. intros H. unfold get_mse_loss. rewrite H. reflexivity. Qed.

Lemma get_mse_loss_bare (t : tie) (ps ls : list Q) :
  ps ≠ [] -> length ps = length ls -> sum_sq_diff ps ls < max_square ->
  get_mse_loss t (Rows (bare ps)) ls
    = Ok (Fin (round2 t (mean_squared_error ps ls))).
Proof.
  intros Hne Hlen Hsum.
  rewrite (get_mse_loss_rows _ _ (bare ps)) by reflexivity.
  rewrite length_bare, Hlen, Nat.eqb_refl. simpl negb. cbv iota.
  destruct (mse_loop_bare ps ls 0 Hsum) as (a' & Hrun & Ha'). rewrite Hrun.
  cbn [mbind result_bind].
  destruct (length ls =? 0)%nat eqn:Hz.
  - apply Nat.eqb_eq in Hz. destruct ps; [done | simpl in Hlen; lia].
  - cbn [num_div num_lift2 num_round2]. do 2 f_equal. apply round2_comp.
    unfold mean_squared_error. rewrite Ha'. field.
    apply Nat.eqb_neq in Hz.
    change 0 with (inject_Z 0). rewrite inject_Z_injective. lia.
Qed.

(** NumPy numbers never make the loop fail. *)
Lemma mse_loop_NpBare_ok (xs : list num) :
  ∀ (ls : list Q) (loss : num),
    ∃ v, mse_loop loss (zip (map NpBare xs) ls) = Ok v.
Proof.
  induction xs as [|x xs IH]; intros [|l ls] loss; simpl; eauto.
Qed.

(** On finite NumPy numbers the loop adds up the squared differences. *)
Lemma mse_loop_np (cs ls : list Q) :
  ∀ a, ∃ a', mse_loop (Fin a) (zip (map NpBare (map Fin cs)) ls) = Ok (Fin a')
             ∧ a' == a + sum_sq_diff cs ls.
Proof.
  revert ls. induction cs as [|c cs IH]; intros [|l ls] a;
    try (exists a; split; [reflexivity | simpl; ring]).
  destruct (IH ls (a + (c - l) ^ 2)) as (a' & Hrun & Ha').
  exists a'. split; [exact Hrun |]. rewrite Ha'. cbn [sum_sq_diff]. ring.
Qed.

(** What [get_mse_loss] returns on finite NumPy numbers. *)
Lemma get_mse_loss_np (t : tie) (cs ls : list Q) :
  get_mse_loss t (Rows (map NpBare (map Fin cs))) ls =
    if negb (length cs =? length ls)%nat
    then Err (AssertionError length_mismatch)
    else if (length ls =? 0)%nat then Err ZeroDivisionError
    else Ok (Fin (round2 t (mean_squared_error cs ls))).
Proof.
  rewrite (get_mse_loss_rows _ _ (map NpBare (map Fin cs))) by reflexivity.
  rewrite !length_map. destruct (negb _); [done |].
  destruct (mse_loop_np cs ls 0) as (a' & -> & Ha'). cbn [mbind result_bind].
  destruct (length ls =? 0)%nat eqn:Hz; [done |].
  cbn [num_div num_lift2 num_round2]. do 2 f_equal. apply round2_comp.
  unfold mean_squared_error. rewrite Ha'. field.
  apply Nat.eqb_neq in Hz.
  change 0 with (inject_Z 0). rewrite inject_Z_injective. lia.
Qed.

Lemma mse_loop_scored (xs : list num) (rows : list row) :
  Forall2 scored_as xs rows ->
  ∀ (ls : list Q) (loss : num),
    mse_loop loss (zip rows ls) = mse_loop loss (zip (map Bare xs) ls).
Proof.
  induction 1 as [|x r xs rows (d & rest & -> & Hd) _ IH]; intros ls loss;
    [reflexivity |].
  destruct ls as [|l ls]; [reflexivity |].
  cbn [map zip zip_with mse_loop row_score]. rewrite Hd.
  cbn [mbind result_bind sq_diff].
  destruct (py_sq (num_sub x (Fin l))); cbn [mbind result_bind]; [apply IH | done].
Qed.






(** The two examples of the specification. *)
Example mean_squared_error_same (t : tie) :
  ∃ r, get_mse_loss t (Rows (bare [4; 3; 5])) [4; 3; 5] = Ok (Fin r) ∧ r == 0.
Proof. destruct t; eexists; (split; [vm_compute; reflexivity | reflexivity]). Qed.

Example mean_squared_error_one (t : tie) :
  ∃ r, get_mse_loss t (Rows (bare [1])) [3] = Ok (Fin r) ∧ r == 4.
Proof. destruct t; eexists; (split; [vm_compute; reflexivity | reflexivity]). Qed.

(** At a decimal tie the result is one hundredth or the other: 200
    predictions of which one is off by one have the mean squared error
    0.005. *)
Example get_mse_loss_at_tie :
  get_mse_loss TieDown (Rows (bare (1 :: replicate 199 0))) (replicate 200 0)
    = Ok (Fin (0 # 100))
  ∧ get_mse_loss TieUp (Rows (bare (1 :: replicate 199 0))) (replicate 200 0)
    = Ok (Fin (1 # 100)).
Proof. split; vm_compute; reflexivity. Qed.

(** C4: whenever the number of predictions differs from the number of
    labels, [get_mse_loss] fails on its length assertion and returns no
    value. *)
Theorem get_mse_loss_length_mismatch (t : tie) (res : predictions)
    (rows : list row) (labels : list Q) :
  rows_of res = Ok rows -> length rows ≠ length labels ->
  get_mse_loss t res labels = Err (AssertionError length_mismatch).
Proof.
  intros Hres Hne. rewrite (get_mse_loss_rows _ _ _ _ Hres).
  apply Nat.eqb_neq in Hne. rewrite Hne. reflexivity.
Qed.

Lemma get_mse_loss_length_mismatch_witness :
  get_mse_loss TieDown (Rows (bare [4; 3])) [4]
    = Err (AssertionError length_mismatch).
Proof.
  apply (get_mse_loss_length_mismatch _ _ (bare [4; 3]));
    [reflexivity | simpl; lia].
Defined.

(** C5: a sequence of structured score objects is scored as the bare
    sequence of the first elements of their ['scores'] fields, against any
    labels. *)
Theorem get_mse_loss_shapes (t : tie) (xs : list num) (rows : list row)
    (ls : list Q) :
  Forall2 scored_as xs rows ->
  get_mse_loss t (Rows rows) ls = get_mse_loss t (Rows (map Bare xs)) ls.
Proof.
  intros H.
  rewrite (get_mse_loss_rows _ _ rows), (get_mse_loss_rows _ _ (map Bare xs))
    by reflexivity.
  rewrite length_map, <- (Forall2_length _ _ _ H).
  by rewrite (mse_loop_scored _ _ H).
Qed.

Lemma get_mse_loss_shapes_witness :
  get_mse_loss TieDown
    (Rows [Scored {[ "scores"%string := [Fin 4; Fin 1] ]};
           Scored {[ "scores"%string := [Fin (7 # 2)] ]}]) [5; 3]
  = get_mse_loss TieDown (Rows (map Bare [Fin 4; Fin (7 # 2)])) [5; 3].
Proof.
  apply get_mse_loss_shapes.
  repeat constructor; eexists _, _; (split; [reflexivity |]);
    vm_compute; reflexivity.
Defined.

(** C10: [get_mse_loss] divides by the number of labels without a guard:
    it fails with a division by zero exactly when it is given no prediction
    and no label, and so never when there is a label. *)
Theorem get_mse_loss_zero_division (t : tie) (res : predictions)
    (labels : list Q) :
  get_mse_loss t res labels = Err ZeroDivisionError
  ↔ rows_of res = Ok [] ∧ labels = [].
Proof.
  split.
  - unfold get_mse_loss. destruct (rows_of res) as [rows | e] eqn:Hres.
    + cbn [mbind result_bind].
      destruct (length rows =? length labels)%nat eqn:Hlen; [| done].
      cbn [negb].
      pose proof (mse_loop_no_zero_division (zip rows labels) (Fin 0)).
      destruct (mse_loop (Fin 0) (zip rows labels)) as [loss | e];
        cbn [mbind result_bind]; [| congruence].
      destruct (length labels =? 0)%nat eqn:Hz; [| done].
      intros _. apply Nat.eqb_eq in Hlen, Hz. rewrite Hz in Hlen.
      destruct rows; [| done]. by destruct labels.
    + destruct res as [rows | d]; simpl in Hres; [done |].
      destruct (d !! "predictions"%string); simplify_eq. done.
  - intros [Hres ->]. by rewrite (get_mse_loss_rows _ _ _ _ Hres).
Qed.
End Scoring.

(** ** Baselines *)

Section Baselines.
Local Open Scope Q_scope.

Lemma foldl_Qplus_total (l : list Q) (a : Q) : foldl Qplus a l == a + total l.
Proof.
  revert a. induction l as [|x l IH]; intros a; simpl; [ring |].
  rewrite IH. ring.
Qed.

Lemma np_mean_arithmetic_mean (l : list Q) :
  l ≠ [] -> ∃ m, np_mean l = Fin m ∧ m == arithmetic_mean l.
Proof.
  intros Hne. destruct l as [|x l]; [done |].
  eexists. split; [reflexivity |].
  unfold arithmetic_mean, Qsum. rewrite foldl_Qplus_total.
  apply Qmult_comp; [ring | reflexivity].
Qed.

Lemma bs1_prediction_rounded (t : tie) (train_data_list : list labeled_row) :
  train_data_list ≠ [] ->
  bs1_prediction t train_data_list
    = Fin (round2 t (arithmetic_mean (train_r_label train_data_list))).
Proof.
  intros Hne. unfold bs1_prediction.
  destruct (np_mean_arithmetic_mean (train_r_label train_data_list))
    as (m & -> & Hm).
  { unfold train_r_label. by destruct train_data_list. }
  simpl. f_equal. by apply round2_comp.
Qed.

(** C6, as stated, fails: on the ratings 1, 1 and 2, whose mean is 4/3,
    every prediction is 1.33, for either direction at a tie. *)
Lemma bs1_prediction_not_exact :
  let train := [rated 1 1 1; rated 1 2 1; rated 2 1 2] in
  bs1_predictions TieDown train [5; 3] = [Fin (133 # 100); Fin (133 # 100)]
  ∧ bs1_predictions TieUp train [5; 3] = [Fin (133 # 100); Fin (133 # 100)]
  ∧ ¬ (133 # 100 == arithmetic_mean (train_r_label train)).
Proof.
  split; [vm_compute; reflexivity |].
  split; [vm_compute; reflexivity | vm_compute; discriminate].
Qed.

(** C6, amended: the global baseline precomputes the arithmetic mean of all
    training ratings rounded to two decimals, a number with two decimals
    within 0.005 of the mean, and gives exactly that constant for every
    validation query; on the training ratings 5, 3, 4 the constant is 4. *)
Theorem bs1_predictions_rounded_mean (t : tie)
    (train_data_list : list labeled_row) (valid_r_label : list Q) :
  train_data_list ≠ [] ->
  ∃ c, length (bs1_predictions t train_data_list valid_r_label)
       = length valid_r_label
       ∧ (∀ p, p ∈ bs1_predictions t train_data_list valid_r_label -> p = Fin c)
       ∧ two_decimals c
       ∧ Qabs (c - arithmetic_mean (train_r_label train_data_list)) <= 1 # 200
       ∧ (train_r_label train_data_list = [5; 3; 4] -> c == 4).
Proof.
  intros Hne.
  exists (round2 t (arithmetic_mean (train_r_label train_data_list))).
  unfold bs1_predictions. rewrite (bs1_prediction_rounded _ _ Hne).
  split; [apply length_replicate |].
  split; [intros p Hp; by apply elem_of_replicate in Hp as [-> _] |].
  split; [apply round2_rounded |].
  split; [apply round2_near |].
  intros Heq. rewrite Heq. destruct t; vm_compute; reflexivity.
Qed.

Lemma bs1_predictions_rounded_mean_witness :
  let train := [rated 1 1 5; rated 1 2 3; rated 2 1 4] in
  (∃ c, length (bs1_predictions TieDown train [2; 4]) = length [2; 4]
        ∧ (∀ p, p ∈ bs1_predictions TieDown train [2; 4] -> p = Fin c)
        ∧ two_decimals c
        ∧ Qabs (c - arithmetic_mean (train_r_label train)) <= 1 # 200
        ∧ (train_r_label train = [5; 3; 4] -> c == 4))
  ∧ bs1_predictions TieDown train [2; 4] = [Fin (400 # 100); Fin (400 # 100)]
  ∧ bs1_predictions TieDown [rated 1 1 1; rated 1 2 1; rated 2 1 2] [2]
    = [Fin (133 # 100)].
Proof.
  intros train. split; [| split; vm_compute; reflexivity].
  apply bs1_predictions_rounded_mean. discriminate.
Defined.

(** At a decimal tie the constant is one hundredth or the other: 197
    ratings 1 and 3 ratings 2 have the mean 1.015. *)
Example bs1_prediction_at_tie :
  let train := replicate 197 (rated 1 1 1) ++ replicate 3 (rated 1 1 2) in
  bs1_prediction TieDown train = Fin (101 # 100)
  ∧ bs1_prediction TieUp train = Fin (102 # 100).
Proof. split; vm_compute; reflexivity. Qed.

(** C8: with no training rating the global average is not-a-number, never
    zero or any other ordinary number, and so is every prediction. *)
Theorem bs1_prediction_empty (t : tie) (valid_r_label : list Q) (q : Q) :
  bs1_prediction t [] = NaN
  ∧ bs1_prediction t [] ≠ Fin q
  ∧ Forall (λ p, p = NaN) (bs1_predictions t [] valid_r_label).
Proof.
  split; [reflexivity |]. split; [discriminate |].
  apply Forall_forall. intros p Hp.
  by apply elem_of_replicate in Hp as [-> _].
Qed.

Lemma first_in0_cons (r : instance) (u : Z) (rest : list Z) :
  inst_in0 r = u :: rest -> first_in0 r = Ok u.
Proof. intros H. unfold first_in0. by rewrite H. Qed.

Lemma bs2_row_known (user_dict : gmap string (list (string * Q)))
    (cls : bool) (thres : num) (r : instance) :
  known_user user_dict r -> ∃ p, bs2_row user_dict cls thres r = Ok p.
Proof.
  intros (u & rest & bucket & Hu & Hb & Hne). unfold bs2_row, user_bucket.
  rewrite (first_in0_cons _ _ _ Hu). simpl. rewrite Hb. simpl.
  destruct bucket; [done |]. simpl. eauto.
Qed.

Lemma bs2_row_user_mean (user_dict : gmap string (list (string * Q)))
    (thres : num) (r : instance) (p : num) :
  known_user user_dict r -> bs2_row user_dict false thres r = Ok p ->
  user_mean user_dict r p.
Proof.
  intros (u & rest & bucket & Hu & Hb & Hne). unfold bs2_row, user_bucket.
  rewrite (first_in0_cons _ _ _ Hu). simpl. rewrite Hb. simpl.
  destruct (np_mean_arithmetic_mean bucket.*2) as (m & Hm & Hmean).
  { by destruct bucket. }
  destruct bucket as [|b bucket]; [done |]. simpl. simpl in Hm. rewrite Hm.
  intros [= <-]. exists u, rest, (b :: bucket), m. done.
Qed.

Lemma bs2_row_unknown (user_dict : gmap string (list (string * Q)))
    (cls : bool) (thres : num) (r : instance) (u : Z) (rest : list Z) :
  inst_in0 r = u :: rest -> user_dict !! str u = None ->
  bs2_row user_dict cls thres r = Err (KeyError (str u)).
Proof.
  intros Hu Hb. unfold bs2_row, user_bucket.
  rewrite (first_in0_cons _ _ _ Hu). simpl. by rewrite Hb.
Qed.

(** The loop over queries that all succeed appends their predictions, in
    order. *)
Lemma bs2_loop_known (user_dict : gmap string (list (string * Q)))
    (cls : bool) (thres : num) (known : list instance) :
  Forall (known_user user_dict) known ->
  ∀ preds, ∃ ps,
    Forall2 (λ r p, bs2_row user_dict cls thres r = Ok p) known ps
    ∧ ∀ rest, bs2_loop user_dict cls thres preds (known ++ rest)
              = bs2_loop user_dict cls thres (preds ++ ps) rest.
Proof.
  induction 1 as [|r known Hr _ IH]; intros preds.
  - exists []. split; [constructor |]. intros rest. by rewrite app_nil_r.
  - destruct (bs2_row_known _ cls thres _ Hr) as [p Hp].
    destruct (IH (preds ++ [p])) as (ps & Hps & Hrun).
    exists (p :: ps). split; [by constructor |].
    intros rest. simpl. rewrite Hp. simpl. rewrite Hrun.
    by rewrite <- app_assoc.
Qed.

(** C1: when every query names, as the first element of its [in0], a user
    whose bucket holds a rating, [bs2_predictor] returns, query by query, the
    arithmetic mean of the ratings in that user's bucket; when such queries
    are followed by one whose user has no bucket, it fails with the
    [KeyError] of the lookup. *)
Theorem bs2_predictor_user_mean
    (user_dict : gmap string (list (string * Q))) (known : list instance)
    (thres : num) :
  Forall (known_user user_dict) known ->
  (∃ preds, bs2_predictor {| instances := known |} user_dict false thres
              = Ok preds
            ∧ Forall2 (user_mean user_dict) known preds)
  ∧ (∀ (r : instance) (rest : list instance) (u : Z) (more : list Z)
       (cls : bool),
       inst_in0 r = u :: more -> user_dict !! str u = None ->
       bs2_predictor {| instances := known ++ r :: rest |} user_dict cls thres
         = Err (KeyError (str u))).
Proof.
  intros Hknown. split.
  - destruct (bs2_loop_known _ false thres _ Hknown []) as (ps & Hps & Hrun).
    exists ps. split.
    + unfold bs2_predictor. simpl.
      rewrite <- (app_nil_r known), Hrun. reflexivity.
    + clear Hrun. induction Hps as [|r p known ps Hp _ IH]; [constructor |].
      apply Forall_cons in Hknown as [Hr Hknown].
      constructor; [by eapply bs2_row_user_mean | by apply IH].
  - intros r rest u more cls Hu Hb.
    destruct (bs2_loop_known _ cls thres _ Hknown []) as (ps & _ & Hrun).
    unfold bs2_predictor. simpl. rewrite Hrun. simpl.
    by rewrite (bs2_row_unknown _ _ _ _ _ _ Hu Hb).
Qed.

(** The threshold argument has no effect on [bs2_predictor]. *)
Lemma bs2_loop_thres (user_dict : gmap string (list (string * Q)))
    (cls : bool) (t1 t2 : num) (rows : list instance) (preds : list num) :
  bs2_loop user_dict cls t1 preds rows = bs2_loop user_dict cls t2 preds rows.
Proof.
  revert preds. induction rows as [|r rows IH]; intros preds; [done |].
  simpl. change (bs2_row user_dict cls t1 r) with (bs2_row user_dict cls t2 r).
  destruct (bs2_row user_dict cls t2 r); simpl; [apply IH | done].
Qed.

Lemma bs2_predictor_thres (test_data : inference_data)
    (user_dict : gmap string (list (string * Q))) (cls : bool) (t1 t2 : num) :
  bs2_predictor test_data user_dict cls t1
    = bs2_predictor test_data user_dict cls t2.
Proof. apply bs2_loop_thres. Qed.

Lemma three_users_known (u m : Z) :
  u = 1%Z ∨ u = 12%Z ∨ u = 30%Z -> known_user three_users (query u m).
Proof.
  intros [-> | [-> | ->]]; eexists _, _, _;
    (split; [reflexivity |]); (split; [vm_compute; reflexivity | discriminate]).
Defined.

Lemma bs2_predictor_user_mean_witness :
  ((∃ preds, bs2_predictor
               {| instances := [query 12 9; query 1 9; query 30 9] |}
               three_users false (Fin 3) = Ok preds
             ∧ Forall2 (user_mean three_users)
                 [query 12 9; query 1 9; query 30 9] preds)
   ∧ (∀ (r : instance) (rest : list instance) (u : Z) (more : list Z)
        (cls : bool),
        inst_in0 r = u :: more -> three_users !! str u = None ->
        bs2_predictor
          {| instances := [query 12 9; query 1 9; query 30 9] ++ r :: rest |}
          three_users cls (Fin 3)
          = Err (KeyError (str u))))
  ∧ bs2_predictor {| instances := [query 12 9; query 1 9; query 30 9] |}
      three_users false (Fin 3) = Ok [Fin (3 # 2); Fin (8 # 2); Fin 5]
  ∧ bs2_predictor {| instances := [query 12 9; query 2 9; query 30 9] |}
      three_users false (Fin 3) = Err (KeyError "2").
Proof.
  split; [| split; vm_compute; reflexivity].
  apply bs2_predictor_user_mean.
  repeat constructor; apply three_users_known; auto.
Defined.

(** The scenario of the specification: users 1 and 2 both get 4, and a
    query for the unseen user 3 fails. *)
Example bs2_predictor_scenario :
  bs2_predictor {| instances := [query 1 2; query 2 2] |}
    scenario_users false (Fin 3) = Ok [Fin (8 # 2); Fin 4]
  ∧ bs2_predictor {| instances := [query 1 2; query 3 1] |}
      scenario_users false (Fin 3) = Err (KeyError "3").
Proof. split; vm_compute; reflexivity. Qed.

(** [str] gives the decimal numeral, with its sign. *)
Example str_numerals :
  str 0 = "0"%string ∧ str 12 = "12"%string ∧ str 943 = "943"%string
  ∧ str (-5) = "-5"%string.
Proof. repeat split; vm_compute; reflexivity. Qed.

(** C2 fails on the code: in classification mode [bs2_predictor] compares
    the user's mean with the constant 3 whatever threshold it is given.
    User 1's mean is 4; with the threshold 5 the label is 1, where
    [to_classification_label] gives 0. *)
Theorem bs2_predictor_threshold_ignored :
  bs2_predictor {| instances := [query 1 1] |} scenario_users true (Fin 5)
    = Ok [Fin 1]
  ∧ bs2_predictor {| instances := [query 1 1] |} scenario_users false (Fin 5)
    = Ok [Fin (8 # 2)]
  ∧ num_gt (Fin (8 # 2)) (Fin 5) = false
  ∧ LabelTransformer.ex_label
      (LabelTransformer.to_classification_label
         {| LabelTransformer.user_id := 1; LabelTransformer.item_id := 1;
            LabelTransformer.rating := 8 # 2 |} 5) = 0.
Proof. repeat split; vm_compute; reflexivity. Qed.
End Baselines.
(** ** Binarization *)

Section Binarization.
Import LabelTransformer.
Local Open Scope Q_scope.

(** C7: binarization is a strict comparison: with the threshold 3, the
    rating 4 gives the label 1, the ratings 3 and 2 give the label 0; in
    general the label is 1 exactly when the rating exceeds the threshold,
    and 0 otherwise. *)
Theorem to_classification_label_strict (u i : Z) (record : Record_)
    (threshold : Q) :
  ex_label (to_classification_label
              {| user_id := u; item_id := i; rating := 4 |} 3) = 1
  ∧ ex_label (to_classification_label
                {| user_id := u; item_id := i; rating := 3 |} 3) = 0
  ∧ ex_label (to_classification_label
                {| user_id := u; item_id := i; rating := 2 |} 3) = 0
  ∧ (ex_label (to_classification_label record threshold) = 1
     ↔ threshold < rating record)
  ∧ (ex_label (to_classification_label record threshold) = 0
     ↔ rating record <= threshold).
Proof.
  repeat split; try reflexivity; simpl;
    destruct (Qlt_le_dec threshold (rating record)) as [Hlt | Hle];
    try done; intros H; exfalso; lra.
Qed.
End Binarization.

(** ** More on scoring *)

Section ScoringMore.
Local Open Scope Q_scope.
#[local] Opaque max_square.

Lemma max_square_pos : 0 < max_square.
Proof. vm_compute. reflexivity. Qed.

Lemma mean_squared_error_nonneg (ps ls : list Q) :
  0 <= mean_squared_error ps ls.
Proof.
  unfold mean_squared_error, Qdiv.
  apply Qmult_le_0_compat; [apply sum_sq_diff_nonneg |].
  apply Qinv_le_0_compat. change 0 with (inject_Z 0). rewrite <- Zle_Qle. lia.
Qed.

Lemma sum_sq_diff_sym (ps ls : list Q) : sum_sq_diff ps ls == sum_sq_diff ls ps.
Proof.
  revert ls. induction ps as [|p ps IH]; intros [|l ls]; simpl; try reflexivity.
  rewrite (IH ls). ring.
Qed.

Lemma sum_sq_diff_refl (ls : list Q) : sum_sq_diff ls ls == 0.
Proof. induction ls as [|l ls IH]; simpl; [reflexivity | rewrite IH; ring]. Qed.



(** What [get_mse_loss] has computed on bare finite rows when it returns. *)
Lemma get_mse_loss_bare_inv (t : tie) (ps ls : list Q) (v : num) :
  get_mse_loss t (Rows (bare ps)) ls = Ok v ->
  v = Fin (round2 t (mean_squared_error ps ls))
  ∧ length ps = length ls ∧ ls ≠ [].
Proof.
  rewrite (get_mse_loss_rows _ _ (bare ps)) by reflexivity.
  rewrite length_bare.
  destruct (length ps =? length ls)%nat eqn:Hlen; [| done].
  apply Nat.eqb_eq in Hlen. cbn [negb].
  destruct (mse_loop (Fin 0) (zip (bare ps) ls)) as [loss |] eqn:Hloop; [| done].
  cbn [mbind result_bind].
  destruct (length ls =? 0)%nat eqn:Hz; [done |]. intros [= <-].
  destruct (mse_loop_bare_inv _ _ _ _ Hloop) as (a' & -> & Ha').
  split; [| split; [done | by intros ->]].
  cbn [num_div num_lift2 num_round2]. f_equal. apply round2_comp.
  unfold mean_squared_error. rewrite Ha'. field.
  apply Nat.eqb_neq in Hz.
  change 0 with (inject_Z 0). rewrite inject_Z_injective. lia.
Qed.

(** Swapping predictions and labels leaves every step of the loop as it
    is, its failure included. *)
Lemma mse_loop_bare_sym (ps ls : list Q) :
  ∀ a b : Q, a == b ->
    match mse_loop (Fin a) (zip (bare ps) ls),
          mse_loop (Fin b) (zip (bare ls) ps) with
    | Ok (Fin x), Ok (Fin y) => x == y
    | Err e, Err e' => e = e'
    | _, _ => False
    end.
Proof.
  revert ls. induction ps as [|p ps IH]; intros [|l ls] a b Hab; try done.
  rewrite !mse_loop_bare_cons.
  assert (Hsq : (p - l) ^ 2 == (l - p) ^ 2) by (simpl; ring).
  unfold py_sq.
  destruct (Qlt_le_dec ((p - l) ^ 2) max_square) as [H1 | H1];
    destruct (Qlt_le_dec ((l - p) ^ 2) max_square) as [H2 | H2];
    cbn [mbind result_bind]; try done;
    try (exfalso; rewrite Hsq in H1; lra).
  apply IH. rewrite Hab, Hsq. reflexivity.
Qed.

(** X1: the loss is never negative. *)
Theorem get_mse_loss_nonneg (t : tie) (ps ls : list Q) (r : Q) :
  get_mse_loss t (Rows (bare ps)) ls = Ok (Fin r) -> 0 <= r.
Proof.
  intros H. apply get_mse_loss_bare_inv in H as ([= ->] & _ & _).
  apply round2_nonneg, mean_squared_error_nonneg.
Qed.

Lemma get_mse_loss_nonneg_witness : 0 <= 33 # 100.
Proof.
  apply (get_mse_loss_nonneg TieDown [1; 0; 0] [0; 0; 0]).
  vm_compute. reflexivity.
Defined.

(** X2: predictions equal to the labels have the loss zero. *)
Theorem get_mse_loss_perfect (t : tie) (ls : list Q) :
  ls ≠ [] ->
  ∃ r, get_mse_loss t (Rows (bare ls)) ls = Ok (Fin r) ∧ r == 0.
Proof.
  intros Hne. exists (round2 t (mean_squared_error ls ls)). split.
  - apply get_mse_loss_bare; [done | done |].
    rewrite sum_sq_diff_refl. apply max_square_pos.
  - assert (Hm : mean_squared_error ls ls == 0).
    { unfold mean_squared_error. rewrite sum_sq_diff_refl. unfold Qdiv. ring. }
    rewrite (round2_comp _ _ _ Hm). by destruct t.
Qed.

Lemma get_mse_loss_perfect_witness :
  ∃ r, get_mse_loss TieUp (Rows (bare [4; 3; 5])) [4; 3; 5] = Ok (Fin r)
       ∧ r == 0.
Proof. apply get_mse_loss_perfect. discriminate. Defined.

(** X3: the loss is symmetric in predictions and labels, also in its
    failures. *)
Theorem get_mse_loss_sym (t : tie) (ps ls : list Q) :
  get_mse_loss t (Rows (bare ps)) ls = get_mse_loss t (Rows (bare ls)) ps.
Proof.
  rewrite (get_mse_loss_rows _ _ (bare ps)), (get_mse_loss_rows _ _ (bare ls))
    by reflexivity.
  rewrite !length_bare, (Nat.eqb_sym (length ls) (length ps)).
  destruct (length ps =? length ls)%nat eqn:Hlen; [| done].
  apply Nat.eqb_eq in Hlen. cbn [negb]. rewrite Hlen.
  pose proof (mse_loop_bare_sym ps ls 0 0 (Qeq_refl 0)) as Hsym.
  destruct (mse_loop (Fin 0) (zip (bare ps) ls)) as [[x |] |];
    destruct (mse_loop (Fin 0) (zip (bare ls) ps)) as [[y |] |];
    try done; cbn [mbind result_bind]; [| by subst].
  destruct (length ls =? 0)%nat; [done |].
  cbn [num_div num_lift2 num_round2]. do 2 f_equal. apply round2_comp.
  by rewrite Hsym.
Qed.


(** The predictions 0.1, 3.8, 3.0, 2.3 against the labels 1, 2, 2, 4 have
    the mean squared error 1.985, a decimal tie: the loss is 1.98 or 1.99, as
    the order of the float sum decides. *)
Example get_mse_loss_reorder_at_tie :
  get_mse_loss TieDown (Rows (bare [1 # 10; 38 # 10; 3; 23 # 10])) [1; 2; 2; 4]
    = Ok (Fin (198 # 100))
  ∧ get_mse_loss TieUp (Rows (bare [23 # 10; 3; 38 # 10; 1 # 10])) [4; 2; 2; 1]
    = Ok (Fin (199 # 100))
  ∧ decimal_tie (mean_squared_error [1 # 10; 38 # 10; 3; 23 # 10] [1; 2; 2; 4]).
Proof.
  split; [vm_compute; reflexivity |]. split; [vm_compute; reflexivity |].
  exists 198%Z. vm_compute. reflexivity.
Qed.

End ScoringMore.

(** ** Failures and special values of the scoring *)

Section ScoringFailures.
Local Open Scope Q_scope.
#[local] Opaque max_square.

Lemma sq_diff_in_range (r : row) (x : num) (l : Q) :
  row_score r = Ok x -> row_in_range r l -> ∃ sq, sq_diff r x l = Ok sq.
Proof.
  intros Hx Hr. unfold sq_diff.
  assert (Hpy : square_in_range x l -> ∃ sq, py_sq (num_sub x (Fin l)) = Ok sq).
  { destruct x as [q |]; [| by exists NaN]. intros Hq.
    change (num_sub (Fin q) (Fin l)) with (Fin (q - l)).
    rewrite py_sq_in_range by exact Hq. eauto. }
  destruct r as [y | y | d]; [apply Hpy, Hr, Hx | eauto | apply Hpy, Hr, Hx].
Qed.

Lemma mse_loop_ok_has_score (rows : list row) :
  ∀ (labels : list Q) (loss : num),
    length rows = length labels ->
    (∃ v, mse_loop loss (zip rows labels) = Ok v) -> Forall has_score rows.
Proof.
  induction rows as [|r rows IH]; intros [|l ls] loss Hlen [v Hv]; try done.
  simpl in Hlen. injection Hlen as Hlen. cbn [zip zip_with mse_loop] in Hv.
  destruct (row_score r) as [x |] eqn:Hx; [| done]. cbn [mbind result_bind] in Hv.
  destruct (sq_diff r x l) as [sq |]; [| done]. cbn [mbind result_bind] in Hv.
  constructor; [by exists x | eapply IH; eauto].
Qed.

Lemma mse_loop_ok_in_range (rows : list row) (labels : list Q) :
  Forall2 row_in_range rows labels -> Forall has_score rows ->
  ∀ loss, ∃ v, mse_loop loss (zip rows labels) = Ok v.
Proof.
  induction 1 as [|r l rows ls Hr _ IH]; intros Hscore loss; [by exists loss |].
  apply Forall_cons in Hscore as [[x Hx] Hscore].
  cbn [zip zip_with mse_loop]. rewrite Hx. cbn [mbind result_bind].
  destruct (sq_diff_in_range r x l Hx Hr) as [sq ->]. cbn [mbind result_bind].
  by apply IH.
Qed.

Lemma mse_loop_row_error (r : row) (post : list row) (e : error) :
  row_score r = Err e ->
  ∀ (pre : list row) (labels : list Q) (loss : num),
    Forall has_score pre -> (length pre < length labels)%nat ->
    Forall2 row_in_range pre (take (length pre) labels) ->
    mse_loop loss (zip (pre ++ r :: post) labels) = Err e.
Proof.
  intros He. induction pre as [|r' pre IH]; intros [|l ls] loss Hpre Hlen Hrange;
    try (simpl in Hlen; lia).
  - simpl. by rewrite He.
  - apply Forall_cons in Hpre as [[x Hx] Hpre].
    simpl in Hrange. apply Forall2_cons in Hrange as [Hr Hrange].
    cbn [app zip zip_with mse_loop]. rewrite Hx. cbn [mbind result_bind].
    destruct (sq_diff_in_range r' x l Hx Hr) as [sq ->]. cbn [mbind result_bind].
    apply IH; [done | simpl in Hlen; lia | done].
Qed.

Lemma row_score_error (r : row) (e : error) :
  row_score r = Err e -> e = KeyError "scores" ∨ e = IndexError.
Proof.
  destruct r as [x | x | d]; simpl; [done | done |].
  destruct (d !! "scores"%string) as [[|x xs] |]; intros [= <-]; auto.
Qed.

Lemma mse_loop_NpBare_nan_acc (xs : list num) :
  ∀ ls : list Q, mse_loop NaN (zip (map NpBare xs) ls) = Ok NaN.
Proof. induction xs as [|x xs IH]; intros [|l ls]; try done. apply IH. Qed.

Lemma mse_loop_NpBare_nan (xs : list num) :
  NaN ∈ xs ->
  ∀ (ls : list Q) (loss : num),
    length xs = length ls -> mse_loop loss (zip (map NpBare xs) ls) = Ok NaN.
Proof.
  induction xs as [|x xs IH]; intros Hin [|l ls] loss Hlen; try done.
  - by apply elem_of_nil in Hin.
  - simpl in Hlen. injection Hlen as Hlen.
    apply elem_of_cons in Hin as [<- | Hin].
    + cbn [map zip zip_with mse_loop row_score sq_diff mbind result_bind].
      replace (num_add loss (num_sq (num_sub NaN (Fin l)))) with NaN
        by (by destruct loss).
      apply mse_loop_NpBare_nan_acc.
    + cbn [map zip zip_with mse_loop row_score sq_diff mbind result_bind].
      by apply IH.
Qed.

Lemma mse_loop_Bare_nan_acc (xs : list num) (ls : list Q) :
  Forall2 square_in_range xs ls ->
  mse_loop NaN (zip (map Bare xs) ls) = Ok NaN.
Proof.
  induction 1 as [|x l xs ls Hx _ IH]; [done |].
  cbn [map zip zip_with mse_loop row_score sq_diff mbind result_bind].
  destruct x as [q |]; simpl in Hx; [| exact IH].
  change (num_sub (Fin q) (Fin l)) with (Fin (q - l)).
  rewrite py_sq_in_range by done. exact IH.
Qed.

Lemma mse_loop_Bare_nan (xs : list num) (ls : list Q) :
  Forall2 square_in_range xs ls -> NaN ∈ xs ->
  ∀ loss, mse_loop loss (zip (map Bare xs) ls) = Ok NaN.
Proof.
  induction 1 as [|x l xs ls Hx Hrest IH]; intros Hin loss.
  - by apply elem_of_nil in Hin.
  - cbn [map zip zip_with mse_loop row_score sq_diff mbind result_bind].
    destruct x as [q |].
    + apply elem_of_cons in Hin as [[=] | Hin]. simpl in Hx.
      change (num_sub (Fin q) (Fin l)) with (Fin (q - l)).
      rewrite py_sq_in_range by done. cbn [mbind result_bind]. by apply IH.
    + cbn [num_sub num_lift2 py_sq mbind result_bind].
      replace (num_add loss NaN) with NaN by (by destruct loss).
      by apply mse_loop_Bare_nan_acc.
Qed.

(** X5: [get_mse_loss] returns a value only if the predictions can be read
    (a sequence, or a dictionary with the key ['predictions']), there are as
    many of them as labels, there is at least one label, and every row is a
    number or has a non-empty ['scores'] list; and it does return one if,
    moreover, the squared difference of every Python number is in the range
    of doubles. *)
Theorem get_mse_loss_succeeds (t : tie) (res : predictions) (labels : list Q) :
  ((∃ v, get_mse_loss t res labels = Ok v) ->
   ∃ rows, rows_of res = Ok rows ∧ length rows = length labels
           ∧ labels ≠ [] ∧ Forall has_score rows)
  ∧ (∀ rows, rows_of res = Ok rows -> length rows = length labels ->
       labels ≠ [] -> Forall has_score rows ->
       Forall2 row_in_range rows labels ->
       ∃ v, get_mse_loss t res labels = Ok v).
Proof.
  split.
  - intros [v Hv]. destruct (rows_of res) as [rows | e] eqn:Hres.
    + rewrite (get_mse_loss_rows _ _ _ _ Hres) in Hv. exists rows.
      destruct (length rows =? length labels)%nat eqn:Hlen; [| done].
      apply Nat.eqb_eq in Hlen. cbn [negb] in Hv.
      destruct (mse_loop (Fin 0) (zip rows labels)) as [loss | e] eqn:Hloop;
        [| done].
      cbn [mbind result_bind] in Hv.
      destruct (length labels =? 0)%nat eqn:Hz; [done |].
      split; [done |]. split; [done |]. split.
      * intros ->. done.
      * apply (mse_loop_ok_has_score rows labels (Fin 0) Hlen). eauto.
    + unfold get_mse_loss in Hv. by rewrite Hres in Hv.
  - intros rows Hres Hlen Hne Hrows Hrange.
    rewrite (get_mse_loss_rows _ _ _ _ Hres), Hlen, Nat.eqb_refl. cbn [negb].
    destruct (mse_loop_ok_in_range rows labels Hrange Hrows (Fin 0)) as [loss ->].
    cbn [mbind result_bind]. destruct labels; [done |]. simpl. eauto.
Qed.

Lemma get_mse_loss_succeeds_witness :
  ∃ v, get_mse_loss TieDown
         (Rows [Bare (Fin 4); NpBare (Fin 3); Scored {[ "scores"%string := [Fin 5] ]}])
         [4; 2; 5] = Ok v.
Proof.
  apply (proj2 (get_mse_loss_succeeds TieDown
                  (Rows [Bare (Fin 4); NpBare (Fin 3);
                         Scored {[ "scores"%string := [Fin 5] ]}]) [4; 2; 5])
           [Bare (Fin 4); NpBare (Fin 3); Scored {[ "scores"%string := [Fin 5] ]}]);
    [reflexivity | reflexivity | discriminate | |].
  - repeat constructor; eexists; vm_compute; reflexivity.
  - repeat constructor; try done; intros x [= <-]; vm_compute; reflexivity.
Defined.

(** X6: when the lengths agree and the rows before it resolve, with the
    squared differences of their Python numbers in the range of doubles, the
    first row that is a dictionary without the key ['scores'], or with an
    empty ['scores'] list, makes [get_mse_loss] fail with that row's
    [KeyError] or [IndexError]. *)
Theorem get_mse_loss_row_error (t : tie) (res : predictions)
    (pre post : list row) (r : row) (labels : list Q) (e : error) :
  rows_of res = Ok (pre ++ r :: post) ->
  length (pre ++ r :: post) = length labels ->
  Forall has_score pre ->
  Forall2 row_in_range pre (take (length pre) labels) ->
  row_score r = Err e ->
  get_mse_loss t res labels = Err e ∧ (e = KeyError "scores" ∨ e = IndexError).
Proof.
  intros Hres Hlen Hpre Hrange He. split; [| by eapply row_score_error].
  rewrite (get_mse_loss_rows _ _ _ _ Hres), Hlen, Nat.eqb_refl. cbn [negb].
  rewrite (mse_loop_row_error r post e He pre labels (Fin 0) Hpre); [done | | done].
  rewrite <- Hlen, length_app. simpl. lia.
Qed.

Lemma get_mse_loss_row_error_witness :
  get_mse_loss TieDown (Rows [Bare (Fin 4); Scored ∅; Bare (Fin 1)]) [4; 3; 5]
    = Err (KeyError "scores")
  ∧ (KeyError "scores" = KeyError "scores" ∨ KeyError "scores" = IndexError).
Proof.
  apply (get_mse_loss_row_error _ _ [Bare (Fin 4)] [Bare (Fin 1)] (Scored ∅)).
  - reflexivity.
  - reflexivity.
  - repeat constructor. by exists (Fin 4).
  - repeat constructor. intros x [= <-]. vm_compute. reflexivity.
  - reflexivity.
Defined.

(** Without the condition on the range an earlier row answers first: the
    square of [10 ^ 200] overflows before the row without scores is
    reached. *)
Example get_mse_loss_overflow_first (t : tie) :
  get_mse_loss t (Rows [Bare (Fin (inject_Z (10 ^ 200))); Scored ∅]) [0; 0]
    = Err OverflowError
  ∧ get_mse_loss t (Rows [Bare (Fin (inject_Z (10 ^ 200))); Bare NaN]) [0; 0]
    = Err OverflowError.
Proof. destruct t; split; vm_compute; reflexivity. Qed.

(** X7: one prediction that is not a number makes the whole loss
    not-a-number: always for NumPy numbers, and for Python numbers when the
    squared differences of the others are in the range of doubles. *)
Theorem get_mse_loss_nan (t : tie) (xs : list num) (ls : list Q) :
  NaN ∈ xs -> length xs = length ls ->
  get_mse_loss t (Rows (map NpBare xs)) ls = Ok NaN
  ∧ (Forall2 square_in_range xs ls ->
     get_mse_loss t (Rows (map Bare xs)) ls = Ok NaN).
Proof.
  intros Hin Hlen.
  assert (Hne : (length ls =? 0)%nat = false).
  { apply Nat.eqb_neq. rewrite <- Hlen.
    destruct xs; [by apply elem_of_nil in Hin | done]. }
  split; [| intros Hrange].
  - rewrite (get_mse_loss_rows _ _ (map NpBare xs)) by reflexivity.
    rewrite length_map, Hlen, Nat.eqb_refl. cbn [negb].
    rewrite (mse_loop_NpBare_nan xs Hin ls (Fin 0) Hlen).
    cbn [mbind result_bind]. by rewrite Hne.
  - rewrite (get_mse_loss_rows _ _ (map Bare xs)) by reflexivity.
    rewrite length_map, Hlen, Nat.eqb_refl. cbn [negb].
    rewrite (mse_loop_Bare_nan xs ls Hrange Hin (Fin 0)).
    cbn [mbind result_bind]. by rewrite Hne.
Qed.

Lemma get_mse_loss_nan_witness :
  get_mse_loss TieDown (Rows (map NpBare [Fin 4; NaN])) [4; 3] = Ok NaN
  ∧ get_mse_loss TieDown (Rows (map Bare [Fin 4; NaN])) [4; 3] = Ok NaN.
Proof.
  destruct (get_mse_loss_nan TieDown [Fin 4; NaN] [4; 3]) as [Hnp Hpy];
    [apply list_elem_of_further, list_elem_of_here | reflexivity |].
  split; [exact Hnp | apply Hpy].
  repeat constructor.
Defined.

(** X8: every number [get_mse_loss] returns is a whole number of
    hundredths. *)
Theorem get_mse_loss_hundredths (t : tie) (res : predictions)
    (labels : list Q) (r : Q) :
  get_mse_loss t res labels = Ok (Fin r) -> ∃ k : Z, r = k # 100.
Proof.
  unfold get_mse_loss. destruct (rows_of res) as [rows |]; [| done].
  cbn [mbind result_bind]. destruct (negb _); [done |].
  destruct (mse_loop _ _) as [loss |]; [| done]. cbn [mbind result_bind].
  destruct (_ =? _)%nat; [done |].
  destruct loss as [q |]; [| done]. simpl. intros [= <-]. by eexists.
Qed.

Lemma get_mse_loss_hundredths_witness : ∃ k : Z, 33 # 100 = k # 100.
Proof.
  apply (get_mse_loss_hundredths TieDown (Rows (bare [1; 0; 0])) [0; 0; 0]).
  vm_compute. reflexivity.
Defined.

(** X27: a bare Python number whose difference from its label is a double
    but has a square out of the range of doubles makes [get_mse_loss] fail
    with [OverflowError], after rows that are in range; NumPy numbers never
    do. *)
Theorem get_mse_loss_overflow (t : tie) (ps ls : list Q) (p l : Q)
    (post : list row) (post_labels : list Q) :
  length ps = length ls -> length post = length post_labels ->
  sum_sq_diff ps ls < max_square ->
  Qabs (p - l) < max_square -> max_square <= (p - l) ^ 2 ->
  get_mse_loss t (Rows (bare ps ++ Bare (Fin p) :: post))
    (ls ++ l :: post_labels) = Err OverflowError
  ∧ ∀ (xs : list num) (labels : list Q),
      get_mse_loss t (Rows (map NpBare xs)) labels ≠ Err OverflowError.
Proof.
  intros Hlen Hpost Hsum Hd Hsq. split.
  - rewrite (get_mse_loss_rows _ _ (bare ps ++ Bare (Fin p) :: post))
      by reflexivity.
    rewrite !length_app, length_bare. cbn [length]. rewrite Hlen, Hpost.
    rewrite Nat.eqb_refl. cbn [negb].
    assert (Hloop : ∀ a, mse_loop (Fin a)
                           (zip (bare ps ++ Bare (Fin p) :: post)
                              (ls ++ l :: post_labels)) = Err OverflowError).
    { clear Hpost. revert ls Hlen Hsum.
      induction ps as [|p' ps IH]; intros [|l' ls] Hlen Hsum a; try done.
      - cbn [bare map app zip zip_with mse_loop row_score sq_diff].
        cbn [mbind result_bind].
        change (num_sub (Fin p) (Fin l)) with (Fin (p - l)).
        by rewrite py_sq_overflow.
      - cbn [sum_sq_diff] in Hsum.
        pose proof (sum_sq_diff_nonneg ps ls). pose proof (Qsq_nonneg (p' - l')).
        change (mse_loop (Fin a)
                  (zip (bare (p' :: ps) ++ Bare (Fin p) :: post)
                     ((l' :: ls) ++ l :: post_labels)))
          with (sq ← py_sq (Fin (p' - l'));
                mse_loop (num_add (Fin a) sq)
                  (zip (bare ps ++ Bare (Fin p) :: post) (ls ++ l :: post_labels))).
        rewrite py_sq_in_range by lra. cbn [mbind result_bind].
        apply IH; [by injection Hlen | lra]. }
    by rewrite Hloop.
  - intros xs labels.
    rewrite (get_mse_loss_rows _ _ (map NpBare xs)) by reflexivity.
    destruct (negb _); [done |].
    destruct (mse_loop_NpBare_ok xs labels (Fin 0)) as [v ->].
    cbn [mbind result_bind]. by destruct (_ =? _)%nat.
Qed.

Lemma get_mse_loss_overflow_witness :
  get_mse_loss TieDown
    (Rows (bare [4] ++ Bare (Fin (inject_Z (10 ^ 200))) :: [Bare (Fin 1)]))
    ([3] ++ 0 :: [1]) = Err OverflowError
  ∧ ∀ (xs : list num) (labels : list Q),
      get_mse_loss TieDown (Rows (map NpBare xs)) labels ≠ Err OverflowError.
Proof.
  apply get_mse_loss_overflow;
    [reflexivity | reflexivity | vm_compute; reflexivity
    | vm_compute; reflexivity | vm_compute; discriminate].
Defined.
End ScoringFailures.

(** ** More on Baseline 1 *)

Section GlobalAverage.
Local Open Scope Q_scope.

Lemma total_bounds (l : list Q) (lo hi : Q) :
  Forall (λ x, lo <= x <= hi) l ->
  inject_Z (Z.of_nat (length l)) * lo <= total l
  ∧ total l <= inject_Z (Z.of_nat (length l)) * hi.
Proof.
  induction 1 as [|x l [Hlo Hhi] _ [IHlo IHhi]].
  { cbn [length total]. change (inject_Z (Z.of_nat 0)) with 0. split; lra. }
  cbn [length total]. rewrite Nat2Z.inj_succ. unfold Z.succ.
  rewrite inject_Z_plus. change (inject_Z 1) with 1.
  generalize dependent (inject_Z (Z.of_nat (length l))). intros n ? ?.
  split; lra.
Qed.

Lemma arithmetic_mean_bounds (l : list Q) (lo hi : Q) :
  l ≠ [] -> Forall (λ x, lo <= x <= hi) l ->
  lo <= arithmetic_mean l <= hi.
Proof.
  intros Hne Hall. destruct (total_bounds l lo hi Hall) as [Hlo Hhi].
  assert (Hn : 0 < inject_Z (Z.of_nat (length l))).
  { change 0 with (inject_Z 0). rewrite <- Zlt_Qlt.
    destruct l; [done | simpl; lia]. }
  unfold arithmetic_mean. split.
  - apply Qle_shift_div_l; [done |]. by rewrite Qmult_comm.
  - apply Qle_shift_div_r; [done |]. by rewrite Qmult_comm.
Qed.

Lemma np_mean_bounds (l : list Q) (lo hi : Q) :
  l ≠ [] -> Forall (λ x, lo <= x <= hi) l ->
  ∃ m, np_mean l = Fin m ∧ lo <= m <= hi.
Proof.
  intros Hne Hall. destruct (np_mean_arithmetic_mean l Hne) as (m & -> & Hm).
  exists m. split; [done |]. rewrite Hm. by apply arithmetic_mean_bounds.
Qed.

Lemma map_Fin_replicate (n : nat) (c : Q) :
  replicate n (Fin c) = map Fin (replicate n c).
Proof. induction n as [|n IH]; [done |]. simpl. by rewrite IH. Qed.

(** X9: when all training ratings lie between two whole numbers, as the
    ratings 1 to 5 do, so does the global average prediction, rounding
    included. *)
Theorem bs1_prediction_range (t : tie) (train_data_list : list labeled_row)
    (lo hi : Z) :
  train_data_list ≠ [] ->
  Forall (λ r, inject_Z lo <= label r <= inject_Z hi) train_data_list ->
  ∃ c, bs1_prediction t train_data_list = Fin c
       ∧ inject_Z lo <= c <= inject_Z hi.
Proof.
  intros Hne Hall. rewrite (bs1_prediction_rounded _ _ Hne). eexists.
  split; [reflexivity |].
  assert (Hm : inject_Z lo <= arithmetic_mean (train_r_label train_data_list)
               <= inject_Z hi).
  { apply arithmetic_mean_bounds.
    - unfold train_r_label. by destruct train_data_list.
    - unfold train_r_label. by apply Forall_fmap. }
  destruct Hm as [Hlo Hhi]. split.
  - rewrite <- (round2_Z t lo). by apply round2_mono.
  - rewrite <- (round2_Z t hi). by apply round2_mono.
Qed.

Lemma bs1_prediction_range_witness :
  ∃ c, bs1_prediction TieDown [rated 1 1 1; rated 1 2 1; rated 2 1 2] = Fin c
       ∧ inject_Z 1 <= c <= inject_Z 5.
Proof.
  apply bs1_prediction_range; [discriminate |].
  repeat constructor; vm_compute; discriminate.
Defined.

(** X10: the validation loss of Baseline 1 never fails on the length check:
    it fails only on an empty validation set, with a division by zero. *)
Theorem bs1_loss_fails_iff (t t' : tie) (train_data_list : list labeled_row)
    (valid_r_label : list Q) (e : error) :
  bs1_loss t t' train_data_list valid_r_label = Err e
  ↔ valid_r_label = [] ∧ e = ZeroDivisionError.
Proof.
  unfold bs1_loss.
  rewrite (get_mse_loss_rows _ _
             (map NpBare (bs1_predictions t train_data_list valid_r_label)))
    by reflexivity.
  unfold bs1_predictions. rewrite length_map, length_replicate, Nat.eqb_refl.
  cbn [negb].
  destruct (mse_loop_NpBare_ok (replicate (length valid_r_label)
              (bs1_prediction t train_data_list)) valid_r_label (Fin 0))
    as [loss ->].
  cbn [mbind result_bind]. destruct valid_r_label as [|l ls]; simpl.
  - split; [by intros [= <-] | by intros [_ ->]].
  - split; [done | by intros [? _]].
Qed.

(** X11: on non-empty training and validation sets the validation loss of
    Baseline 1 is, rounded to two decimals, the mean squared deviation of
    the validation labels from the prediction, which is the training mean
    rounded to two decimals. *)
Theorem bs1_loss_value (t t' : tie) (train_data_list : list labeled_row)
    (valid_r_label : list Q) :
  train_data_list ≠ [] -> valid_r_label ≠ [] ->
  ∃ c r,
    bs1_prediction t train_data_list = Fin c
    ∧ rounded_to_two_decimals
        (arithmetic_mean (train_r_label train_data_list)) c
    ∧ bs1_loss t t' train_data_list valid_r_label = Ok (Fin r)
    ∧ rounded_to_two_decimals
        (mean_squared_error (replicate (length valid_r_label) c) valid_r_label)
        r.
Proof.
  intros Htrain Hvalid.
  exists (round2 t (arithmetic_mean (train_r_label train_data_list))).
  eexists. split; [by apply bs1_prediction_rounded |].
  split; [apply round2_rounded |]. split; [| apply (round2_rounded t')].
  unfold bs1_loss, bs1_predictions.
  rewrite (bs1_prediction_rounded _ _ Htrain), map_Fin_replicate.
  rewrite get_mse_loss_np, length_replicate, Nat.eqb_refl. cbn [negb].
  by destruct valid_r_label.
Qed.

Lemma bs1_loss_value_witness :
  (∃ c r,
     bs1_prediction TieDown [rated 1 1 5; rated 2 1 4] = Fin c
     ∧ rounded_to_two_decimals
         (arithmetic_mean (train_r_label [rated 1 1 5; rated 2 1 4])) c
     ∧ bs1_loss TieDown TieUp [rated 1 1 5; rated 2 1 4] [3; 5] = Ok (Fin r)
     ∧ rounded_to_two_decimals
         (mean_squared_error (replicate (length [3; 5]) c) [3; 5]) r)
  ∧ bs1_loss TieDown TieUp [rated 1 1 5; rated 2 1 4] [3; 5]
    = Ok (Fin (125 # 100)).
Proof.
  split; [apply bs1_loss_value; discriminate | vm_compute; reflexivity].
Defined.

(** On 197 ratings 1 and 3 ratings 2, whose mean 1.015 is a decimal tie, the
    loss against the label 2 is 0.98 for the prediction 1.01 and 0.96 for
    the prediction 1.02. *)
Example bs1_loss_at_tie (t' : tie) :
  let train := replicate 197 (rated 1 1 1) ++ replicate 3 (rated 1 1 2) in
  bs1_loss TieDown t' train [2] = Ok (Fin (98 # 100))
  ∧ bs1_loss TieUp t' train [2] = Ok (Fin (96 # 100)).
Proof. destruct t'; split; vm_compute; reflexivity. Qed.

(** X12: with no training rating and some validation label, the validation
    loss of Baseline 1 is not-a-number. *)
Theorem bs1_loss_no_training (t t' : tie) (valid_r_label : list Q) :
  valid_r_label ≠ [] -> bs1_loss t t' [] valid_r_label = Ok NaN.
Proof.
  intros Hne. unfold bs1_loss.
  rewrite (get_mse_loss_rows _ _
             (map NpBare (bs1_predictions t [] valid_r_label)))
    by reflexivity.
  unfold bs1_predictions. rewrite length_map, length_replicate, Nat.eqb_refl.
  cbn [negb].
  rewrite (mse_loop_NpBare_nan
             (replicate (length valid_r_label) (bs1_prediction t [])));
    [| destruct valid_r_label; [done | by left] | by rewrite length_replicate].
  by destruct valid_r_label.
Qed.

Lemma bs1_loss_no_training_witness : bs1_loss TieDown TieDown [] [3; 5] = Ok NaN.
Proof. apply bs1_loss_no_training. discriminate. Defined.
End GlobalAverage.

(** ** More on Baseline 2 *)

Section UserAverage.
Local Open Scope Q_scope.
Context (user_dict : gmap string (list (string * Q))).

Lemma bs2_row_ok_known (cls : bool) (thres : num) (r : instance) (p : num) :
  bs2_row user_dict cls thres r = Ok p -> known_user user_dict r.
Proof.
  unfold bs2_row, user_bucket, known_user, first_in0.
  destruct (inst_in0 r) as [|u rest]; [done |]. simpl.
  destruct (user_dict !! str u) as [bucket |] eqn:Hb; [| done]. simpl.
  destruct bucket as [|b bucket]; [done |]. intros _.
  exists u, rest, (b :: bucket). done.
Qed.

(** What a successful run of the loop has appended. *)
Lemma bs2_loop_ok (cls : bool) (thres : num) (rows : list instance) :
  ∀ preds res,
    bs2_loop user_dict cls thres preds rows = Ok res ->
    ∃ ps, res = preds ++ ps
          ∧ Forall2 (λ r p, bs2_row user_dict cls thres r = Ok p) rows ps.
Proof.
  induction rows as [|r rows IH]; intros preds res; simpl.
  - intros [= <-]. exists []. by rewrite app_nil_r.
  - destruct (bs2_row user_dict cls thres r) as [p |] eqn:Hp; [| done]. simpl.
    intros Hrun. destruct (IH _ _ Hrun) as (ps & -> & Hps).
    exists (p :: ps). split; [by rewrite <- app_assoc | by constructor].
Qed.

Lemma bs2_loop_app (cls : bool) (thres : num) (a b : list instance) :
  ∀ preds,
    bs2_loop user_dict cls thres preds (a ++ b)
    = match bs2_loop user_dict cls thres preds a with
      | Ok ps => bs2_loop user_dict cls thres ps b
      | Err e => Err e
      end.
Proof.
  induction a as [|r a IH]; intros preds; simpl; [done |].
  destruct (bs2_row user_dict cls thres r) as [p |]; simpl; [apply IH | done].
Qed.

Lemma bs2_loop_acc (cls : bool) (thres : num) (rows : list instance) :
  ∀ preds,
    bs2_loop user_dict cls thres preds rows
    = match bs2_loop user_dict cls thres [] rows with
      | Ok ps => Ok (preds ++ ps)
      | Err e => Err e
      end.
Proof.
  induction rows as [|r rows IH]; intros preds; simpl.
  - by rewrite app_nil_r.
  - destruct (bs2_row user_dict cls thres r) as [p |]; simpl; [| done].
    rewrite (IH (preds ++ [p])), (IH [p]).
    destruct (bs2_loop user_dict cls thres [] rows); [| done].
    by rewrite <- app_assoc.
Qed.

Lemma bs2_row_above_three (t t' : num) (r : instance) :
  bs2_row user_dict true t r
  = match bs2_row user_dict false t' r with
    | Ok p => Ok (above_three p)
    | Err e => Err e
    end.
Proof.
  unfold bs2_row. destruct (first_in0 r) as [u |]; [| done]. simpl.
  destruct (user_bucket user_dict (str u)) as [bucket |]; [| done]. simpl.
  destruct (unzip_bucket bucket) as [[movies ratings] |]; done.
Qed.

Lemma bs2_row_first_in0 (cls : bool) (t : num) (r1 r2 : instance) :
  first_in0 r1 = first_in0 r2 ->
  bs2_row user_dict cls t r1 = bs2_row user_dict cls t r2.
Proof. intros H. unfold bs2_row. by rewrite H. Qed.

(** X13: a successful [bs2_predictor] returns one prediction per query, in
    the order of the queries. *)
Theorem bs2_predictor_one_per_query (test_data : inference_data)
    (cls : bool) (thres : num) (preds : list num) :
  bs2_predictor test_data user_dict cls thres = Ok preds ->
  length preds = length (instances test_data)
  ∧ ∀ (i : nat) (r : instance),
      instances test_data !! i = Some r ->
      ∃ p, preds !! i = Some p
           ∧ bs2_predictor {| instances := [r] |} user_dict cls thres = Ok [p].
Proof.
  intros Hrun. apply bs2_loop_ok in Hrun as (ps & -> & Hps). simpl.
  split; [symmetry; by eapply Forall2_length |].
  intros i r Hi. destruct (Forall2_lookup_l _ _ _ _ _ Hps Hi) as (p & Hp & Hrow).
  exists p. split; [done |]. unfold bs2_predictor. simpl. by rewrite Hrow.
Qed.

(** X14: [bs2_predictor] returns predictions exactly when every query has a
    user in [in0] whose bucket exists and is not empty. *)
Theorem bs2_predictor_succeeds_iff (test_data : inference_data)
    (cls : bool) (thres : num) :
  (∃ preds, bs2_predictor test_data user_dict cls thres = Ok preds)
  ↔ Forall (known_user user_dict) (instances test_data).
Proof.
  split.
  - intros [preds Hrun]. apply bs2_loop_ok in Hrun as (ps & _ & Hps).
    induction Hps as [|r p rows ps Hp _ IH]; constructor; [| done].
    by eapply bs2_row_ok_known.
  - intros Hknown.
    destruct (bs2_loop_known user_dict cls thres _ Hknown []) as (ps & _ & Hrun).
    exists ps. unfold bs2_predictor.
    rewrite <- (app_nil_r (instances test_data)), Hrun. reflexivity.
Qed.

(** X15: after queries that can be answered, a query with an empty [in0]
    makes [bs2_predictor] fail with [IndexError], and a query whose user has an
    empty bucket makes it fail with [ValueError]. *)
Theorem bs2_predictor_first_error (known rest : list instance) (r : instance)
    (cls : bool) (thres : num) :
  Forall (known_user user_dict) known ->
  (inst_in0 r = [] ->
   bs2_predictor {| instances := known ++ r :: rest |} user_dict cls thres
     = Err IndexError)
  ∧ (∀ u, first_in0 r = Ok u -> user_dict !! str u = Some [] ->
     bs2_predictor {| instances := known ++ r :: rest |} user_dict cls thres
       = Err ValueError).
Proof.
  intros Hknown.
  destruct (bs2_loop_known user_dict cls thres _ Hknown []) as (ps & _ & Hrun).
  unfold bs2_predictor. simpl. rewrite Hrun. simpl. split.
  - intros Hr. unfold bs2_row, first_in0. by rewrite Hr.
  - intros u Hu Hb. unfold bs2_row, user_bucket. rewrite Hu. simpl.
    by rewrite Hb.
Qed.

(** X16: in classification mode every prediction is the label 0 or 1. *)
Theorem bs2_predictor_labels (test_data : inference_data) (thres : num)
    (preds : list num) :
  bs2_predictor test_data user_dict true thres = Ok preds ->
  Forall (λ p, p = Fin 0 ∨ p = Fin 1) preds.
Proof.
  intros Hrun. apply bs2_loop_ok in Hrun as (ps & -> & Hps). simpl.
  induction Hps as [|r p rows ps Hp _ IH]; constructor; [| done].
  rewrite (bs2_row_above_three thres thres) in Hp.
  destruct (bs2_row user_dict false thres r) as [q |]; [| done].
  injection Hp as <-. unfold above_three, int_of_bool.
  destruct (num_gt q (Fin 3)); auto.
Qed.

(** X17: classification mode is regression mode followed by [int(p > 3)] on
    each prediction, with the same failures, whatever thresholds are passed. *)
Theorem bs2_predictor_classification (test_data : inference_data)
    (t t' : num) :
  bs2_predictor test_data user_dict true t
  = match bs2_predictor test_data user_dict false t' with
    | Ok preds => Ok (map above_three preds)
    | Err e => Err e
    end.
Proof.
  unfold bs2_predictor. change [] with (map above_three []) at 1.
  generalize (@nil num). induction (instances test_data) as [|r rows IH];
    intros acc; simpl; [done |].
  rewrite (bs2_row_above_three t t').
  destruct (bs2_row user_dict false t' r) as [p |]; simpl; [| done].
  rewrite <- IH. by rewrite map_app.
Qed.

(** X18: the prediction for a query depends on the first element of its
    [in0] only: the movie asked about plays no part. *)
Theorem bs2_predictor_item_independent (test_data1 test_data2 : inference_data)
    (cls : bool) (thres : num) :
  map first_in0 (instances test_data1) = map first_in0 (instances test_data2) ->
  bs2_predictor test_data1 user_dict cls thres
    = bs2_predictor test_data2 user_dict cls thres.
Proof.
  unfold bs2_predictor. generalize (@nil num).
  generalize (instances test_data2).
  induction (instances test_data1) as [|r1 rows1 IH];
    intros [|r2 rows2] acc Heq; try done.
  simpl in Heq. injection Heq as Hr Hrows. simpl.
  rewrite (bs2_row_first_in0 cls thres r1 r2 Hr).
  destruct (bs2_row user_dict cls thres r2); simpl; [by apply IH | done].
Qed.

(** X19: predicting for two batches of queries at once gives the predictions
    of the first batch followed by those of the second. *)
Theorem bs2_predictor_app (a b : list instance) (cls : bool) (thres : num)
    (pa pb : list num) :
  bs2_predictor {| instances := a |} user_dict cls thres = Ok pa ->
  bs2_predictor {| instances := b |} user_dict cls thres = Ok pb ->
  bs2_predictor {| instances := a ++ b |} user_dict cls thres = Ok (pa ++ pb).
Proof.
  unfold bs2_predictor. simpl. intros Ha Hb.
  by rewrite bs2_loop_app, Ha, bs2_loop_acc, Hb.
Qed.

(** X20: when all ratings of the index lie between [lo] and [hi], so does
    every prediction of the regression mode, which is a number. *)
Theorem bs2_predictor_range (test_data : inference_data) (thres : num)
    (lo hi : Q) (preds : list num) :
  map_Forall (λ _ bucket, Forall (λ mr, lo <= mr.2 <= hi) bucket) user_dict ->
  bs2_predictor test_data user_dict false thres = Ok preds ->
  Forall (λ p, ∃ m, p = Fin m ∧ lo <= m <= hi) preds.
Proof.
  intros Hall Hrun. apply bs2_loop_ok in Hrun as (ps & -> & Hps). simpl.
  induction Hps as [|r p rows ps Hp _ IH]; constructor; [| done].
  revert Hp. unfold bs2_row, user_bucket.
  destruct (first_in0 r) as [u |]; [| done]. simpl.
  destruct (user_dict !! str u) as [bucket |] eqn:Hb; [| done]. simpl.
  specialize (Hall _ _ Hb). simpl in Hall.
  destruct bucket as [|b bucket]; [done |].
  destruct (np_mean_bounds ((b :: bucket).*2) lo hi) as (m & Hm & Hrange);
    [done | by apply Forall_fmap |].
  simpl. simpl in Hm. rewrite Hm. intros [= <-]. eauto.
Qed.
End UserAverage.

Section UserAverageExamples.
Local Open Scope Q_scope.

Lemma scenario_known (u m : Z) :
  u = 1%Z ∨ u = 2%Z -> known_user scenario_users (query u m).
Proof.
  intros [-> | ->]; eexists _, _, _;
    (split; [reflexivity |]); (split; [vm_compute; reflexivity | discriminate]).
Defined.

Lemma bs2_predictor_one_per_query_witness :
  length [Fin (8 # 2); Fin 4] = length [query 1 2; query 2 2]
  ∧ ∀ (i : nat) (r : instance),
      [query 1 2; query 2 2] !! i = Some r ->
      ∃ p, [Fin (8 # 2); Fin 4] !! i = Some p
           ∧ bs2_predictor {| instances := [r] |} scenario_users false (Fin 3)
             = Ok [p].
Proof.
  apply (bs2_predictor_one_per_query scenario_users
           {| instances := [query 1 2; query 2 2] |}).
  vm_compute. reflexivity.
Defined.

Lemma bs2_predictor_first_error_witness :
  (inst_in0 {| inst_in0 := []; inst_in1 := [1%Z] |} = [] ->
   bs2_predictor
     {| instances := [query 1 2] ++ {| inst_in0 := []; inst_in1 := [1%Z] |} :: [] |}
     scenario_users false (Fin 3) = Err IndexError)
  ∧ (∀ u, first_in0 {| inst_in0 := []; inst_in1 := [1%Z] |} = Ok u ->
     scenario_users !! str u = Some [] ->
     bs2_predictor
       {| instances := [query 1 2] ++ {| inst_in0 := []; inst_in1 := [1%Z] |} :: [] |}
       scenario_users false (Fin 3) = Err ValueError).
Proof.
  apply bs2_predictor_first_error.
  repeat constructor. apply scenario_known. by left.
Defined.

Lemma bs2_predictor_labels_witness :
  Forall (λ p, p = Fin 0 ∨ p = Fin 1) [Fin 1; Fin 1].
Proof.
  apply (bs2_predictor_labels scenario_users
           {| instances := [query 1 2; query 2 2] |} (Fin 3)).
  vm_compute. reflexivity.
Defined.

Lemma bs2_predictor_item_independent_witness :
  bs2_predictor {| instances := [query 1 1; query 2 1] |} scenario_users
    false (Fin 3)
  = bs2_predictor {| instances := [query 1 7; query 2 9] |} scenario_users
      false (Fin 3).
Proof. apply bs2_predictor_item_independent. reflexivity. Defined.

Lemma bs2_predictor_app_witness :
  bs2_predictor {| instances := [query 1 1] ++ [query 2 1] |} scenario_users
    false (Fin 3) = Ok ([Fin (8 # 2)] ++ [Fin 4]).
Proof. apply bs2_predictor_app; vm_compute; reflexivity. Defined.

Lemma bs2_predictor_range_witness :
  Forall (λ p, ∃ m, p = Fin m ∧ 1 <= m <= 5) [Fin (8 # 2); Fin 4].
Proof.
  apply (bs2_predictor_range scenario_users
           {| instances := [query 1 2; query 2 2] |} (Fin 3)).
  - unfold scenario_users. apply map_Forall_insert_2.
    + repeat constructor; vm_compute; discriminate.
    + apply map_Forall_singleton. repeat constructor; vm_compute; discriminate.
  - vm_compute. reflexivity.
Defined.
End UserAverageExamples.

(** ** The validation loss of Baseline 2 *)

Section UserAverageLoss.
Local Open Scope Q_scope.

Lemma bs2_loop_known_Fin (user_dict : gmap string (list (string * Q)))
    (thres : num) (known : list instance) :
  Forall (known_user user_dict) known ->
  ∃ ms, bs2_loop user_dict false thres [] known = Ok (map Fin ms)
        ∧ length ms = length known.
Proof.
  intros Hknown.
  destruct (bs2_loop_known user_dict false thres _ Hknown []) as (ps & Hps & Hrun).
  specialize (Hrun []). rewrite app_nil_r in Hrun. rewrite Hrun. clear Hrun.
  simpl. induction Hps as [|r p rows ps Hp _ IH].
  - by exists [].
  - apply Forall_cons in Hknown as [Hr Hknown].
    destruct (IH Hknown) as (ms & [= ->] & Hlen).
    destruct (bs2_row_user_mean _ _ _ _ Hr Hp) as (_ & _ & _ & m & _ & _ & -> & _).
    exists (m :: ms). simpl. by rewrite Hlen.
Qed.

(** X21: when every validation query can be answered, the validation loss of
    Baseline 2 fails on the length check if the labels are not as many as the
    queries, and is otherwise, for at least one label, a number that is not
    negative. *)
Theorem bs2_loss_known (t : tie) (valid_r_data : inference_data)
    (to_users_dict : gmap string (list (string * Q))) (valid_r_label : list Q) :
  Forall (known_user to_users_dict) (instances valid_r_data) ->
  (length (instances valid_r_data) ≠ length valid_r_label ->
   bs2_loss t valid_r_data to_users_dict valid_r_label
     = Err (AssertionError length_mismatch))
  ∧ (length (instances valid_r_data) = length valid_r_label ->
     valid_r_label ≠ [] ->
     ∃ r, bs2_loss t valid_r_data to_users_dict valid_r_label = Ok (Fin r)
          ∧ 0 <= r).
Proof.
  intros Hknown.
  destruct (bs2_loop_known_Fin to_users_dict (Fin 3) _ Hknown)
    as (ms & Hrun & Hms).
  unfold bs2_loss, bs2_predictor. rewrite Hrun. cbn [mbind result_bind].
  rewrite get_mse_loss_np, Hms. split.
  - intros Hne. apply Nat.eqb_neq in Hne. by rewrite Hne.
  - intros Hlen Hlabels. rewrite Hlen, Nat.eqb_refl. simpl.
    destruct valid_r_label as [|l ls]; [done |]. simpl.
    eexists. split; [reflexivity |].
    apply round2_nonneg, mean_squared_error_nonneg.
Qed.

Lemma bs2_loss_known_witness :
  (length [query 1 2; query 2 2] ≠ length [3; 5] ->
   bs2_loss TieDown {| instances := [query 1 2; query 2 2] |} scenario_users [3; 5]
     = Err (AssertionError length_mismatch))
  ∧ (length [query 1 2; query 2 2] = length [3; 5] ->
     [3; 5] ≠ [] ->
     ∃ r, bs2_loss TieDown {| instances := [query 1 2; query 2 2] |} scenario_users [3; 5]
          = Ok (Fin r)
          ∧ 0 <= r).
Proof.
  apply (bs2_loss_known TieDown {| instances := [query 1 2; query 2 2] |}).
  repeat constructor; apply scenario_known; auto.
Defined.
End UserAverageLoss.

(** ** Exploration and class balance *)

Section Exploration.
Local Open Scope Q_scope.

Lemma count_no_more_than_filter (bound : nat) (per_user : list nat) :
  ∀ count,
    count_no_more_than bound count per_user
    = (count + length (filter (λ n, n ≤ bound)%nat per_user))%nat.
Proof.
  induction per_user as [|n rest IH]; intros count; simpl; [lia |].
  rewrite IH, filter_cons.
  destruct (Nat.leb_spec n bound); case_decide; simpl; lia.
Qed.

(** X22: the counting loop of the exploration cell counts the users of the
    index whose bucket has at most [bound] entries, in whatever order the
    index is enumerated; the count is at most the number of users. *)
Theorem count_no_more_than_users
    (to_users_dict : gmap string (list (string * Q))) (bound : nat) :
  count_no_more_than bound 0 (movies_per_user to_users_dict)
    = size (filter (λ kv, length kv.2 ≤ bound)%nat to_users_dict)
  ∧ (count_no_more_than bound 0 (movies_per_user to_users_dict)
     ≤ size to_users_dict)%nat.
Proof.
  assert (H : count_no_more_than bound 0 (movies_per_user to_users_dict)
              = size (filter (λ kv, length kv.2 ≤ bound)%nat to_users_dict)).
  { rewrite count_no_more_than_filter. simpl. unfold movies_per_user.
    induction to_users_dict as [|k bucket d Hk IH] using map_ind.
    - by rewrite map_filter_empty, map_to_list_empty, map_size_empty.
    - rewrite (map_to_list_insert d k bucket Hk). rewrite fmap_cons, filter_cons.
      cbn [snd]. destruct (decide (length bucket ≤ bound)%nat) as [Hle | Hgt].
      + rewrite map_filter_insert_True by done.
        rewrite map_size_insert_None by (by rewrite map_lookup_filter_None; left).
        simpl. by rewrite IH.
      + rewrite map_filter_insert_False by done.
        rewrite delete_id by done. exact IH. }
  split; [exact H |]. rewrite H. apply map_size_filter.
Qed.

Lemma count_nonzero_le (l : list Q) : (count_nonzero l <= length l)%nat.
Proof.
  induction l as [|x l IH]; simpl; [lia |]. destruct (Qeq_bool x 0); lia.
Qed.

Lemma count_nonzero_binary (l : list Q) :
  Forall (λ x, x == 0 ∨ x == 1) l ->
  inject_Z (Z.of_nat (count_nonzero l)) == total l.
Proof.
  induction 1 as [|x l Hx _ IH]; [reflexivity |].
  cbn [count_nonzero total]. rewrite Nat2Z.inj_add, inject_Z_plus, IH.
  destruct (Qeq_bool x 0) eqn:Hz.
  - apply Qeq_bool_iff in Hz. rewrite Hz. reflexivity.
  - destruct Hx as [Hx | Hx].
    + apply Qeq_bool_iff in Hx. congruence.
    + rewrite Hx. reflexivity.
Qed.

(** X23: on at least one label, all 0 or 1, the two ways in which the
    notebook computes the share of positive labels, by counting the labels
    that are not zero and by summing them, give the same number, which lies
    between 0 and 1. *)
Theorem positive_fraction_agree (labels : list Q) :
  labels ≠ [] -> Forall (λ x, x == 0 ∨ x == 1) labels ->
  ∃ a b, train_positive_fraction labels = Ok (Fin a)
         ∧ valid_positive_fraction labels = Fin b
         ∧ a == b ∧ 0 <= a <= 1.
Proof.
  intros Hne Hbin. destruct labels as [|x l]; [done |].
  eexists _, _. split; [reflexivity |]. split; [reflexivity |].
  set (labels := x :: l) in *.
  assert (Hn : 0 < inject_Z (Z.of_nat (length labels))).
  { change 0 with (inject_Z 0). rewrite <- Zlt_Qlt. simpl. lia. }
  split; [| split].
  - unfold Qsum. rewrite foldl_Qplus_total, (count_nonzero_binary _ Hbin).
    apply Qmult_comp; [ring | reflexivity].
  - apply Qle_shift_div_l; [done |]. rewrite Qmult_0_l.
    change 0 with (inject_Z 0). rewrite <- Zle_Qle. lia.
  - apply Qle_shift_div_r; [done |]. rewrite Qmult_1_l.
    rewrite <- Zle_Qle. pose proof (count_nonzero_le labels). lia.
Qed.

Lemma positive_fraction_agree_witness :
  ∃ a b, train_positive_fraction [1; 0; 1; 1] = Ok (Fin a)
         ∧ valid_positive_fraction [1; 0; 1; 1] = Fin b
         ∧ a == b ∧ 0 <= a <= 1.
Proof.
  apply positive_fraction_agree; [discriminate |].
  repeat constructor; (by left) || (by right).
Defined.
End Exploration.

(** ** Bounds and reorderings *)

Section Bounds.
Local Open Scope Q_scope.
#[local] Opaque max_square.



Lemma total_Permutation (l1 l2 : list Q) : l1 ≡ₚ l2 -> total l1 == total l2.
Proof.
  induction 1 as [| x l1 l2 _ IH | x y l | l1 l2 l3 _ IH1 _ IH2]; simpl.
  - reflexivity.
  - by rewrite IH.
  - ring.
  - by rewrite IH1.
Qed.



(** X25: the answer of the prediction endpoint, a dictionary whose
    ['predictions'] are dictionaries with one score each, is scored as the
    bare sequence of these scores. *)
Theorem get_mse_loss_endpoint (t : tie) (xs : list num) (ls : list Q) :
  get_mse_loss t (endpoint_response xs) ls
    = get_mse_loss t (Rows (map Bare xs)) ls.
Proof.
  rewrite (get_mse_loss_rows _ (endpoint_response xs)
             (map (λ x, Scored {[ "scores"%string := [x] ]}) xs))
    by (unfold endpoint_response; simpl; by rewrite lookup_singleton_eq).
  rewrite (get_mse_loss_rows _ _ (map Bare xs)) by reflexivity.
  rewrite !length_map.
  rewrite (mse_loop_scored xs); [done |].
  induction xs as [|x xs IH]; constructor; [| done].
  eexists _, []. split; [done |]. by rewrite lookup_singleton_eq.
Qed.

(** X26: in exact arithmetic, and for a given direction at a tie, the
    global average prediction does not depend on the order of the training
    rows, which the notebook shuffles. *)
Theorem bs1_prediction_Permutation (t : tie) (train1 train2 : list labeled_row) :
  train1 ≡ₚ train2 -> bs1_prediction t train1 = bs1_prediction t train2.
Proof.
  intros H. destruct train1 as [|r train1].
  { apply Permutation_nil_l in H. by subst. }
  assert (Hne : train2 ≠ []).
  { intros ->. by apply Permutation_nil_r in H. }
  rewrite !bs1_prediction_rounded by done. f_equal. apply round2_comp.
  unfold arithmetic_mean, train_r_label.
  assert (Hp : map label (r :: train1) ≡ₚ map label train2)
    by (by apply fmap_Permutation).
  rewrite (total_Permutation _ _ Hp), (Permutation_length Hp). reflexivity.
Qed.

Lemma bs1_prediction_Permutation_witness :
  bs1_prediction TieDown [rated 1 1 5; rated 1 2 3; rated 2 1 4]
    = bs1_prediction TieDown [rated 1 2 3; rated 1 1 5; rated 2 1 4].
Proof. apply bs1_prediction_Permutation. apply perm_swap. Defined.
End Bounds.
